(** * OrangutanBuzzer: timer1 PWM buzzer driver

    A shallow embedding of [OrangutanBuzzer.cpp] (Orangutan LV-168, ATmega168
    at 20 MHz, avr-gcc).  The memory-mapped registers the driver touches and
    its two global variables form a record; every C function is a function
    from machine state to machine state.  On this target [unsigned char] is
    8 bits, [unsigned int] is 16 bits and [long] is 32 bits; integers are
    modelled as [Z] with each wrap-around written out. *)

From Stdlib Require Import ZArith Lia Bool List Ascii String.
Import ListNotations.
Open Scope Z_scope.

(** ** Machine integers *)

Definition u8 (z : Z) : Z := z mod 256.
Definition u16 (z : Z) : Z := z mod 65536.
(** Two's complement 32-bit [long]. *)
Definition s32 (z : Z) : Z := (z + 2147483648) mod 4294967296 - 2147483648.

(** ** Constants *)

Definition F_CPU : Z := 20000000.
Definition TIMER1_OFF : Z := 0x00.
Definition TIMER1_CLK_1 : Z := 0x01.
Definition TIMER1_CLK_8 : Z := 0x02.

(** Bit numbers from avr/io.h (ATmega168). *)
Definition PB2 : Z := 2.
Definition TOIE1 : Z := 0.
Definition SREG_I : Z := 7.

(** Modelled from the spec: [DIV_BY_10] is declared in the header
    OrangutanBuzzer.h.  The spec calls it "a reserved high bit of the
    frequency value" and the comment in [playNote] says "the most
    significant bit of freq is the divide by 10 bit": bit 15 of a 16-bit
    [unsigned int]. *)
Definition DIV_BY_10 : Z := Z.shiftl 1 15.

(** Modelled from the spec: [SILENT_NOTE] is declared in OrangutanBuzzer.h.
    The spec calls it "a reserved note value"; the comment in [playNote]
    says "if note = 255, freq = 1 kHz and buzzer is silent". *)
Definition SILENT_NOTE : Z := 255.

(** ** Machine state *)

Record machine : Type := mkMachine {
  SREG : Z;            (* status register, bit 7 = global interrupt enable *)
  DDRB : Z;            (* port B data direction *)
  TCCR1A : Z;
  TCCR1B : Z;
  TCCR1C : Z;
  OCR1A : Z;           (* 16-bit: TOP *)
  OCR1B : Z;           (* 16-bit: compare value, duty cycle *)
  TCNT1 : Z;
  TIFR1 : Z;
  TIMSK1 : Z;
  buzzerTimeout : Z;   (* volatile unsigned int *)
  buzzerFinished : Z   (* volatile unsigned char *)
}.

Definition set_SREG (v : Z) (m : machine) : machine :=
  mkMachine v (DDRB m) (TCCR1A m) (TCCR1B m) (TCCR1C m) (OCR1A m) (OCR1B m)
            (TCNT1 m) (TIFR1 m) (TIMSK1 m) (buzzerTimeout m) (buzzerFinished m).
Definition set_DDRB (v : Z) (m : machine) : machine :=
  mkMachine (SREG m) v (TCCR1A m) (TCCR1B m) (TCCR1C m) (OCR1A m) (OCR1B m)
            (TCNT1 m) (TIFR1 m) (TIMSK1 m) (buzzerTimeout m) (buzzerFinished m).
Definition set_TCCR1A (v : Z) (m : machine) : machine :=
  mkMachine (SREG m) (DDRB m) v (TCCR1B m) (TCCR1C m) (OCR1A m) (OCR1B m)
            (TCNT1 m) (TIFR1 m) (TIMSK1 m) (buzzerTimeout m) (buzzerFinished m).
Definition set_TCCR1B (v : Z) (m : machine) : machine :=
  mkMachine (SREG m) (DDRB m) (TCCR1A m) v (TCCR1C m) (OCR1A m) (OCR1B m)
            (TCNT1 m) (TIFR1 m) (TIMSK1 m) (buzzerTimeout m) (buzzerFinished m).
Definition set_TCCR1C (v : Z) (m : machine) : machine :=
  mkMachine (SREG m) (DDRB m) (TCCR1A m) (TCCR1B m) v (OCR1A m) (OCR1B m)
            (TCNT1 m) (TIFR1 m) (TIMSK1 m) (buzzerTimeout m) (buzzerFinished m).
Definition set_OCR1A (v : Z) (m : machine) : machine :=
  mkMachine (SREG m) (DDRB m) (TCCR1A m) (TCCR1B m) (TCCR1C m) v (OCR1B m)
            (TCNT1 m) (TIFR1 m) (TIMSK1 m) (buzzerTimeout m) (buzzerFinished m).
Definition set_OCR1B (v : Z) (m : machine) : machine :=
  mkMachine (SREG m) (DDRB m) (TCCR1A m) (TCCR1B m) (TCCR1C m) (OCR1A m) v
            (TCNT1 m) (TIFR1 m) (TIMSK1 m) (buzzerTimeout m) (buzzerFinished m).
Definition set_TCNT1 (v : Z) (m : machine) : machine :=
  mkMachine (SREG m) (DDRB m) (TCCR1A m) (TCCR1B m) (TCCR1C m) (OCR1A m) (OCR1B m)
            v (TIFR1 m) (TIMSK1 m) (buzzerTimeout m) (buzzerFinished m).
Definition set_TIFR1 (v : Z) (m : machine) : machine :=
  mkMachine (SREG m) (DDRB m) (TCCR1A m) (TCCR1B m) (TCCR1C m) (OCR1A m) (OCR1B m)
            (TCNT1 m) v (TIMSK1 m) (buzzerTimeout m) (buzzerFinished m).
Definition set_TIMSK1 (v : Z) (m : machine) : machine :=
  mkMachine (SREG m) (DDRB m) (TCCR1A m) (TCCR1B m) (TCCR1C m) (OCR1A m) (OCR1B m)
            (TCNT1 m) (TIFR1 m) v (buzzerTimeout m) (buzzerFinished m).
Definition set_buzzerTimeout (v : Z) (m : machine) : machine :=
  mkMachine (SREG m) (DDRB m) (TCCR1A m) (TCCR1B m) (TCCR1C m) (OCR1A m) (OCR1B m)
            (TCNT1 m) (TIFR1 m) (TIMSK1 m) v (buzzerFinished m).
Definition set_buzzerFinished (v : Z) (m : machine) : machine :=
  mkMachine (SREG m) (DDRB m) (TCCR1A m) (TCCR1B m) (TCCR1C m) (OCR1A m) (OCR1B m)
            (TCNT1 m) (TIFR1 m) (TIMSK1 m) (buzzerTimeout m) v.

(** Registers and zero-initialised globals after reset. *)
Definition power_on : machine := mkMachine 0 0 0 0 0 0 0 0 0 0 0 0.

(** [cli()] and [sei()] clear and set the I bit of SREG. *)
Definition cli (m : machine) : machine :=
  set_SREG (Z.land (SREG m) (Z.lnot (Z.shiftl 1 SREG_I))) m.
Definition sei (m : machine) : machine :=
  set_SREG (Z.lor (SREG m) (Z.shiftl 1 SREG_I)) m.

Definition interrupts_enabled (m : machine) : bool := Z.testbit (SREG m) SREG_I.

(** ** Observations of the peripheral configuration *)

(** Clock select bits CS12:0 of TCCR1B. *)
Definition clock_select (m : machine) : Z := Z.land (TCCR1B m) 0x07.

(** The buzzer pin PB2 is an input (buzzer silent) when its DDRB bit is clear. *)
Definition pin_is_input (m : machine) : bool := negb (Z.testbit (DDRB m) PB2).

(** Idle reference: prescaler 1, TOP for 1 kHz, 0% duty cycle, pin an input. *)
Definition idle_reference (m : machine) : bool :=
  (clock_select m =? TIMER1_CLK_1) && (OCR1A m =? F_CPU / 1000)
  && (OCR1B m =? 0) && pin_is_input m.

(** ** Timer1 overflow interrupt *)

(** [if (buzzerTimeout-- == 0) { ... }]: the old value is compared, the
    variable is decremented (modulo 2^16) in either case. *)
Definition TIMER1_OVF_vect (m : machine) : machine :=
  let old := buzzerTimeout m in
  let m := set_buzzerTimeout (u16 (old - 1)) m in
  if old =? 0 then
    let m := set_TCCR1B (Z.lor (Z.land (TCCR1B m) 0xF8) TIMER1_CLK_1) m in
    let m := set_OCR1A (F_CPU / 1000) m in
    let m := set_OCR1B 0 m in
    let m := set_DDRB (Z.land (DDRB m) (Z.lnot (Z.shiftl 1 PB2))) m in
    set_buzzerFinished 1 m
  else m.

(** [n] consecutive executions of the handler. *)
Fixpoint ticks (n : nat) (m : machine) : machine :=
  match n with
  | O => m
  | S k => ticks k (TIMER1_OVF_vect m)
  end.

(** ** init *)

Definition init (m : machine) : machine :=
  let m := set_DDRB (Z.land (DDRB m) (Z.lnot (Z.shiftl 1 PB2))) m in
  let m := set_TCCR1A 0x23 m in
  let m := set_TCCR1B 0x19 m in
  let m := set_TCCR1C 0x00 m in
  let m := set_OCR1A (F_CPU / 1000) m in
  let m := set_OCR1B 0 m in
  let m := set_TCNT1 0 m in
  (* writing ones to TIFR1 clears the flags *)
  let m := set_TIFR1 (Z.land (TIFR1 m) (Z.lnot 0xFF)) m in
  set_TIMSK1 (Z.shiftl 1 TOIE1) m.

(** ** playFrequency *)

(** Lines 141-145: split the argument into multiplier and frequency value. *)
Definition decode_frequency (freq : Z) : Z * Z :=
  if Z.land freq DIV_BY_10 =? 0 then (1, freq)
  else (10, Z.land freq (Z.lnot DIV_BY_10)).

(** Lines 149-175: clock source and counter top.  Returns the (clamped)
    frequency value, [newOCR1A] and the clock select bits or-ed into
    [newTCCR1B]. *)
Definition clock_and_top (multiplier freq : Z) : Z * Z * Z :=
  if freq >? u16 (400 * multiplier) then
    let freq := if freq >? 10000 then 10000 else freq in
    (freq, u16 (20000000 / freq), TIMER1_CLK_1)
  else
    let val := u8 (40 * multiplier) in
    let freq := if freq <? val then val else freq in
    let newOCR1A :=
      if multiplier =? 10 then u16 (25000000 / freq)
      else u16 (2500000 / freq) in
    (freq, newOCR1A, TIMER1_CLK_8).

(** Lines 179-180: the frequency in Hz that the timeout is computed from. *)
Definition round_to_hz (multiplier freq : Z) : Z :=
  if multiplier =? 10 then u16 (freq + 5) / 10 else freq.

(** Lines 182-185: number of timer overflows to wait. *)
Definition compute_timeout (freq duration : Z) : Z :=
  if freq =? 1000 then duration
  else u16 (Z.quot (s32 (duration * freq)) 1000).

(** The frequency value left in [freq] after clamping (Hz, or tenths of a Hz
    when the multiplier is 10). *)
Definition clamped_frequency (freq : Z) : Z :=
  let '(multiplier, freq) := decode_frequency freq in
  let '(freq, _, _) := clock_and_top multiplier freq in
  freq.

(** The frequency in Hz the timeout is computed from. *)
Definition timeout_frequency (freq : Z) : Z :=
  let '(multiplier, freq) := decode_frequency freq in
  let '(freq, _, _) := clock_and_top multiplier freq in
  round_to_hz multiplier freq.

Definition playFrequency (freq duration volume : Z) (m : machine) : machine :=
  let m := set_buzzerFinished 0 m in
  let '(multiplier, freq) := decode_frequency freq in
  let newTCCR1B := Z.land (TCCR1B m) 0xF8 in
  let '(freq, newOCR1A, cs) := clock_and_top multiplier freq in
  let newTCCR1B := Z.lor newTCCR1B cs in
  let freq := round_to_hz multiplier freq in
  let timeout := compute_timeout freq duration in
  let m :=
    if volume =? 0 then set_DDRB (Z.land (DDRB m) (Z.lnot (Z.shiftl 1 PB2))) m
    else set_DDRB (Z.lor (DDRB m) (Z.shiftl 1 PB2)) m in
  let volume := if volume >? 15 then 15 else volume in
  let sreg := SREG m in
  let m := cli m in
  let m := set_TCCR1B newTCCR1B m in
  let m := set_OCR1A newOCR1A m in
  (* a shift of a 16-bit value by 16 (volume 0) is taken to give 0 *)
  let m := set_OCR1B (Z.shiftr (OCR1A m) (16 - volume)) m in
  let m := set_buzzerTimeout timeout m in
  let m := set_SREG sreg m in
  sei m.

(** ** playNote *)

(** Lines 263-301: frequencies of the twelve lowest notes, in tenths of a Hz. *)
Definition base_frequency (key : Z) : Z :=
  match key with
  | 0 => 412 | 1 => 437 | 2 => 463 | 3 => 490
  | 4 => 519 | 5 => 550 | 6 => 583 | 7 => 617
  | 8 => 654 | 9 => 693 | 10 => 734 | 11 => 778
  | _ => 0
  end.

(** Line 312: top octave, [(freq * 64 + 2) / 5] in 16-bit arithmetic. *)
Definition top_octave (freq : Z) : Z := u16 (u16 (freq * 64) + 2) / 5.

(** Lines 244-312 without the silent case: the frequency code of a note. *)
Definition note_frequency (note : Z) : Z :=
  let offset_note := u8 (note - 16) in
  let offset_note :=
    if note <=? 16 then 0
    else if offset_note >? 95 then 95 else offset_note in
  let exponent := offset_note / 12 in
  let freq := base_frequency (offset_note - exponent * 12) in
  if exponent <? 7 then
    let freq := u16 (Z.shiftl freq exponent) in
    if exponent >? 1 then u16 (freq + 5) / 10
    else u16 (freq + DIV_BY_10)
  else top_octave freq.

Definition playNote (note duration volume : Z) (m : machine) : machine :=
  if (note =? SILENT_NOTE) || (volume =? 0) then
    playFrequency 1000 duration 0 m
  else
    let freq := note_frequency note in
    let volume := if volume >? 15 then 15 else volume in
    playFrequency freq duration volume m.

(** ** isPlaying *)

Definition isPlaying (m : machine) : Z :=
  if buzzerFinished m =? 0 then 1 else 0.

(** ** Projections of [playFrequency] *)

(** Value written to OCR1A and clock select bits chosen for a frequency
    argument. *)
Definition counter_top (freq : Z) : Z :=
  let '(multiplier, freq) := decode_frequency freq in
  let '(_, newOCR1A, _) := clock_and_top multiplier freq in
  newOCR1A.

Definition prescaler_bits (freq : Z) : Z :=
  let '(multiplier, freq) := decode_frequency freq in
  let '(_, _, cs) := clock_and_top multiplier freq in
  cs.

(** Division factor selected by the clock select bits. *)
Definition prescaler_of (cs : Z) : Z :=
  if cs =? TIMER1_CLK_1 then 1 else if cs =? TIMER1_CLK_8 then 8 else 0.

(** ** Event traces: calls of the API and executions of the handler *)

Inductive event : Type :=
| PlayFrequency (freq duration volume : Z)
| PlayNote (note duration volume : Z)
| Tick.

Definition step (e : event) (m : machine) : machine :=
  match e with
  | PlayFrequency f d v => playFrequency f d v m
  | PlayNote n d v => playNote n d v m
  | Tick => TIMER1_OVF_vect m
  end.

Definition run (es : list event) (m : machine) : machine :=
  fold_left (fun m e => step e m) es m.

(** States reachable from [init] by API calls and handler executions. *)
Inductive reachable : machine -> Prop :=
| reach_init : forall m0, reachable (init m0)
| reach_step : forall e m, reachable m -> reachable (step e m).

(** ** Frequencies in tenths of a Hz *)

(** True frequency, in tenths of a Hz, of a frequency code. *)
Definition true_tenths (code : Z) : Z :=
  let '(multiplier, freq) := decode_frequency code in
  if multiplier =? 10 then freq else 10 * freq.

(** Reference for the top octave: double seven times, round tenths to Hz,
    over unbounded integers. *)
Definition top_octave_reference (v : Z) : Z := (v * 2 ^ 7 + 5) / 10.

(** True frequency, in tenths of a Hz, that [playNote] hands over for a
    note. *)
Definition note_tenths (note : Z) : Z := true_tenths (note_frequency note).

(** The notes [lo], [lo + 1], ..., [lo + len - 1]. *)
Definition notes_from (lo : Z) (len : nat) : list Z :=
  map (fun k => lo + Z.of_nat k) (seq 0 len).

(** ** play *)

(** Sequencing of computations that may run out of fuel. *)
Definition bind {A B : Type} (x : option A) (k : A -> option B) : option B :=
  match x with
  | Some a => k a
  | None => None
  end.

Notation "' p <- e ;; k" := (bind e (fun p => k))
  (at level 61, p pattern, e at next level, right associativity).

(** [sequence[i]]: the characters of the string followed by the zero byte
    that ends a C string. *)
Definition char_at (sequence : string) (i : Z) : ascii :=
  match String.get (Z.to_nat i) sequence with
  | Some c => c
  | None => Ascii.zero
  end.

(** Lines 339-359: the cases of the switch that choose a note. *)
Definition key_of_letter (c : ascii) : option Z :=
  if (c =? "c")%char then Some 0
  else if (c =? "d")%char then Some 2
  else if (c =? "e")%char then Some 4
  else if (c =? "f")%char then Some 5
  else if (c =? "g")%char then Some 7
  else if (c =? "a")%char then Some 9
  else if (c =? "b")%char then Some 11
  else None.

(** Lines 374-378: [while (sequence[i] == '+') { i++; note++; }] on
    [unsigned char] index and note.  [None] when the fuel runs out. *)
Fixpoint sharps (fuel : nat) (sequence : string) (i note : Z)
  : option (Z * Z) :=
  if (char_at sequence i =? "+")%char then
    match fuel with
    | O => None
    | S fuel' => sharps fuel' sequence (u8 (i + 1)) (u8 (note + 1))
    end
  else Some (i, note).

(** Lines 379-383: [while (sequence[i] == '-') { i++; note--; }]. *)
Fixpoint flats (fuel : nat) (sequence : string) (i note : Z)
  : option (Z * Z) :=
  if (char_at sequence i =? "-")%char then
    match fuel with
    | O => None
    | S fuel' => flats fuel' sequence (u8 (i + 1)) (u8 (note - 1))
    end
  else Some (i, note).

(** What the main program sees of a timer overflow: the handler runs when
    the I bit of SREG and the TOIE1 bit of TIMSK1 are set, otherwise
    nothing happens. *)
Definition overflow_interrupt (m : machine) : machine :=
  if interrupts_enabled m && Z.testbit (TIMSK1 m) TOIE1
  then TIMER1_OVF_vect m else m.

(** Line 387: [while (isPlaying());].  The body is empty; between two polls
    the state changes through the overflow interrupt only. *)
Fixpoint wait_while_playing (fuel : nat) (m : machine) : option machine :=
  if isPlaying m =? 0 then Some m
  else
    match fuel with
    | O => None
    | S fuel' => wait_while_playing fuel' (overflow_interrupt m)
    end.

(** Lines 332-388: the loop of [play], from index [i] (an [unsigned char])
    with the current octave.  The duration is always 200 and the volume 15;
    [note + octave*12] is computed in [int] and converted to the
    [unsigned char] parameter of [playNote].  Each call of [playNote] is
    taken as one step here: the overflow handler runs in the wait loop
    only.  Handler executions inside a call are the subject of
    [playFrequency_preempted] below. *)
Fixpoint play_from (fuel : nat) (sequence : string) (i octave : Z)
  (m : machine) : option machine :=
  match fuel with
  | O => None
  | S fuel' =>
    let c := char_at sequence i in
    if (c =? Ascii.zero)%char then Some m
    else
      match key_of_letter c with
      | Some note =>
        let i := u8 (i + 1) in
        '(i, note) <- sharps fuel' sequence i note ;;
        '(i, note) <- flats fuel' sequence i note ;;
        let m := playNote (u8 (note + octave * 12)) 200 15 m in
        ' m <- wait_while_playing fuel' m ;;
        play_from fuel' sequence i octave m
      | None =>
        if (c =? ">")%char then
          play_from fuel' sequence (u8 (i + 1)) (u8 (octave + 1)) m
        else if (c =? "<")%char then
          play_from fuel' sequence (u8 (i + 1)) (u8 (octave - 1)) m
        else Some m
      end
  end.

Definition play (fuel : nat) (sequence : string) (m : machine)
  : option machine :=
  play_from fuel sequence 0 4 m.

(** Check, for one note, that the frequency code stays inside the range
    where [playFrequency] neither clamps nor mixes units, and that the
    counter top is the truncated quotient for the note's frequency. *)
Definition note_period_ok (note : Z) : bool :=
  let code := note_frequency note in
  let tt := note_tenths note in
  let p := prescaler_of (prescaler_bits code) in
  let top := counter_top code in
  (412 <=? tt) && (tt <=? 99580)
  && (clamped_frequency code =? (if code <? DIV_BY_10 then code else tt))
  && (p =? (if tt <=? 4000 then 8 else 1))
  && (top * tt <=? 10 * (F_CPU / p)) && (10 * (F_CPU / p) <? (top + 1) * tt)
  && (timeout_frequency code =? (tt + 5) / 10).

(** Two machine states that differ only in what a play call overwrites:
    the I bit of SREG, the direction bit of PB2, the clock select bits, the
    two compare registers and the two globals. *)
Definition same_context (m1 m2 : machine) : Prop :=
  Z.lor (SREG m1) (Z.shiftl 1 SREG_I) = Z.lor (SREG m2) (Z.shiftl 1 SREG_I)
  /\ Z.land (DDRB m1) (Z.lnot (Z.shiftl 1 PB2))
     = Z.land (DDRB m2) (Z.lnot (Z.shiftl 1 PB2))
  /\ TCCR1A m1 = TCCR1A m2
  /\ Z.land (TCCR1B m1) 0xF8 = Z.land (TCCR1B m2) 0xF8
  /\ TCCR1C m1 = TCCR1C m2
  /\ TCNT1 m1 = TCNT1 m2
  /\ TIFR1 m1 = TIFR1 m2
  /\ TIMSK1 m1 = TIMSK1 m2.

(** Characters that [play] consumes in its outer loop: the seven note
    letters and the two octave marks. *)
Definition is_note_or_octave (c : ascii) : bool :=
  match key_of_letter c with
  | Some _ => true
  | None => (c =? ">")%char || (c =? "<")%char
  end.

(** Characters that [play] steps over at all: the above, sharps and flats. *)
Definition is_consumed (c : ascii) : bool :=
  is_note_or_octave c || (c =? "+")%char || (c =? "-")%char.

(** [n] copies of a character. *)
Fixpoint repeat_char (n : nat) (c : ascii) : string :=
  match n with
  | O => EmptyString
  | S k => String c (repeat_char k c)
  end.

(** ** Overflow interrupts taken inside playFrequency *)

(** [n] timer overflows in a row, as the main program sees them. *)
Fixpoint overflow_interrupts (n : nat) (m : machine) : machine :=
  match n with
  | O => m
  | S k => overflow_interrupts k (overflow_interrupt m)
  end.

(** Lines 187-190: direction of the buzzer pin. *)
Definition set_pin (volume : Z) (m : machine) : machine :=
  if volume =? 0 then set_DDRB (Z.land (DDRB m) (Z.lnot (Z.shiftl 1 PB2))) m
  else set_DDRB (Z.lor (DDRB m) (Z.shiftl 1 PB2)) m.

(** Lines 141-185 and 192-202: the values computed from the arguments and
    the register writes between [cli()] and [sei()].  [hi] is
    [TCCR1B & 0xF8] as read at line 147. *)
Definition write_registers (freq duration volume hi : Z) (m : machine)
  : machine :=
  let '(multiplier, freq) := decode_frequency freq in
  let '(freq, newOCR1A, cs) := clock_and_top multiplier freq in
  let newTCCR1B := Z.lor hi cs in
  let freq := round_to_hz multiplier freq in
  let timeout := compute_timeout freq duration in
  let volume := if volume >? 15 then 15 else volume in
  let sreg := SREG m in
  let m := cli m in
  let m := set_TCCR1B newTCCR1B m in
  let m := set_OCR1A newOCR1A m in
  let m := set_OCR1B (Z.shiftr (OCR1A m) (16 - volume)) m in
  let m := set_buzzerTimeout timeout m in
  let m := set_SREG sreg m in
  sei m.

(** [playFrequency] with the overflow interrupt taken while it runs.  The
    flag is cleared at line 139 but interrupts are disabled only at line
    196: the handler is taken [a] times before TCCR1B is read at line 147,
    [b] times between that read and the pin write of lines 187-190, and [c]
    times between the pin write and [cli()]. *)
Definition playFrequency_preempted (a b c : nat)
  (freq duration volume : Z) (m : machine) : machine :=
  let m := set_buzzerFinished 0 m in
  let m := overflow_interrupts a m in
  let hi := Z.land (TCCR1B m) 0xF8 in
  let m := overflow_interrupts b m in
  let m := set_pin volume m in
  let m := overflow_interrupts c m in
  write_registers freq duration volume hi m.

(** * Properties *)

(** ** Sanity checks against the comments of the source *)

Example note_16_is_E1 : note_frequency 16 = DIV_BY_10 + 412.
Proof. reflexivity. Qed.

Example note_57_is_A4 : note_frequency 57 = 440.
Proof. reflexivity. Qed.

Example note_111_is_Dsharp9 : note_frequency 111 = 9958.
Proof. reflexivity. Qed.

Example play_440_top :
  OCR1A (playFrequency 440 1000 15 (init power_on)) = 45454
  /\ buzzerTimeout (playFrequency 440 1000 15 (init power_on)) = 440.
Proof. split; reflexivity. Qed.

(** Case analysis shared by the field lemmas: the decoded argument, the
    result of the clock computation and the volume test. *)
Ltac play_cases freq volume :=
  destruct (decode_frequency freq) as [mu fr];
  destruct (clock_and_top mu fr) as [[f' top] cs];
  destruct (volume =? 0); reflexivity.

Section FieldsAfterPlayFrequency.
Variables (freq duration volume : Z) (m : machine).

Let m' := playFrequency freq duration volume m.

Lemma playFrequency_finished : buzzerFinished m' = 0.
Proof.
  subst m'; unfold playFrequency.
  play_cases freq volume.
Qed.

Lemma playFrequency_timeout :
  buzzerTimeout m' = compute_timeout (timeout_frequency freq) duration.
Proof.
  subst m'; unfold playFrequency, timeout_frequency.
  play_cases freq volume.
Qed.

Lemma playFrequency_OCR1A : OCR1A m' = counter_top freq.
Proof.
  subst m'; unfold playFrequency, counter_top.
  play_cases freq volume.
Qed.

Lemma playFrequency_OCR1B :
  OCR1B m' =
  Z.shiftr (counter_top freq) (16 - (if volume >? 15 then 15 else volume)).
Proof.
  subst m'; unfold playFrequency, counter_top.
  play_cases freq volume.
Qed.

Lemma playFrequency_TCCR1B :
  TCCR1B m' = Z.lor (Z.land (TCCR1B m) 0xF8) (prescaler_bits freq).
Proof.
  subst m'; unfold playFrequency, prescaler_bits.
  play_cases freq volume.
Qed.

Lemma playFrequency_DDRB :
  DDRB m' =
  if volume =? 0 then Z.land (DDRB m) (Z.lnot (Z.shiftl 1 PB2))
  else Z.lor (DDRB m) (Z.shiftl 1 PB2).
Proof.
  subst m'; unfold playFrequency.
  play_cases freq volume.
Qed.

Lemma playFrequency_SREG :
  SREG m' = Z.lor (SREG m) (Z.shiftl 1 SREG_I).
Proof.
  subst m'; unfold playFrequency.
  play_cases freq volume.
Qed.
End FieldsAfterPlayFrequency.

(** ** Interrupt flag *)


(** C1: the interrupt-enable state on return from [playFrequency] is claimed
    to equal the state on entry.  Called after [cli()], with the I bit clear,
    [playFrequency(440, 1000, 15)] returns with the I bit set: the saved SREG
    is written back and then [sei()] is executed unconditionally. *)
Theorem playFrequency_reenables_after_cli :
  interrupts_enabled (cli (sei (init power_on))) = false
  /\ interrupts_enabled
       (playFrequency 440 1000 15 (cli (sei (init power_on)))) = true.
Proof. split; reflexivity. Qed.

(** ** The countdown *)

Lemma u16_small z : 0 <= z < 65536 -> u16 z = z.
Proof. intros H; unfold u16; apply Z.mod_small; exact H. Qed.

Lemma u16_range z : 0 <= u16 z < 65536.
Proof. unfold u16; apply Z.mod_pos_bound; lia. Qed.

Lemma set_buzzerTimeout_same m : set_buzzerTimeout (buzzerTimeout m) m = m.
Proof. destruct m; reflexivity. Qed.

Lemma set_buzzerTimeout_twice a b m :
  set_buzzerTimeout a (set_buzzerTimeout b m) = set_buzzerTimeout a m.
Proof. reflexivity. Qed.

(** While the counter is not zero, the handler only decrements it. *)
Lemma tick_counting m :
  0 < buzzerTimeout m < 65536 ->
  TIMER1_OVF_vect m = set_buzzerTimeout (buzzerTimeout m - 1) m.
Proof.
  intros H; unfold TIMER1_OVF_vect.
  destruct (Z.eqb_spec (buzzerTimeout m) 0) as [E | _]; [lia |].
  rewrite u16_small by lia; reflexivity.
Qed.

(** Bit-level facts about the register updates. *)
Lemma testbit_clear_bit d n :
  0 <= n -> Z.testbit (Z.land d (Z.lnot (Z.shiftl 1 n))) n = false.
Proof.
  intros Hn.
  rewrite Z.land_spec, Z.lnot_spec, Z.shiftl_spec, Z.sub_diag by exact Hn.
  apply andb_false_r.
Qed.

Lemma testbit_set_bit d n :
  0 <= n -> Z.testbit (Z.lor d (Z.shiftl 1 n)) n = true.
Proof.
  intros Hn.
  rewrite Z.lor_spec, Z.shiftl_spec, Z.sub_diag by exact Hn.
  apply orb_true_r.
Qed.

Lemma select_clock x cs :
  cs = TIMER1_CLK_1 \/ cs = TIMER1_CLK_8 ->
  Z.land (Z.lor (Z.land x 0xF8) cs) 0x07 = cs.
Proof.
  intros Hcs.
  rewrite Z.land_lor_distr_l, <- Z.land_assoc.
  change (Z.land 0xF8 0x07) with 0; rewrite Z.land_0_r.
  destruct Hcs as [-> | ->]; reflexivity.
Qed.

Lemma idle_reference_intro m :
  clock_select m = TIMER1_CLK_1 -> OCR1A m = F_CPU / 1000 -> OCR1B m = 0 ->
  Z.testbit (DDRB m) PB2 = false ->
  idle_reference m = true.
Proof.
  intros Hc Ha Hb Hd; unfold idle_reference, pin_is_input.
  rewrite Hc, Ha, Hb, Hd; reflexivity.
Qed.

(** On a zero counter the handler silences the buzzer and raises the flag. *)
Lemma tick_expiring m :
  buzzerTimeout m = 0 ->
  buzzerFinished (TIMER1_OVF_vect m) = 1
  /\ idle_reference (TIMER1_OVF_vect m) = true.
Proof.
  intros H.
  assert (E : TIMER1_OVF_vect m =
              set_buzzerFinished 1
                (set_DDRB (Z.land (DDRB m) (Z.lnot (Z.shiftl 1 PB2)))
                   (set_OCR1B 0 (set_OCR1A (F_CPU / 1000)
                      (set_TCCR1B (Z.lor (Z.land (TCCR1B m) 0xF8) TIMER1_CLK_1)
                         (set_buzzerTimeout (u16 (0 - 1)) m)))))).
  { unfold TIMER1_OVF_vect; rewrite H; reflexivity. }
  rewrite E; split; [reflexivity |].
  apply idle_reference_intro; try reflexivity.
  - apply select_clock; left; reflexivity.
  - apply testbit_clear_bit; unfold PB2; lia.
Qed.

Lemma ticks_succ_r k : forall m,
  ticks (S k) m = TIMER1_OVF_vect (ticks k m).
Proof.
  induction k as [| k IH]; intros m; [reflexivity |].
  change (ticks (S (S k)) m) with (ticks (S k) (TIMER1_OVF_vect m)).
  rewrite IH; reflexivity.
Qed.

(** [k] executions of the handler, [k] at most the stored count, bring the
    counter down by [k] and touch nothing else. *)
Lemma ticks_counting k : forall m,
  0 <= buzzerTimeout m < 65536 ->
  Z.of_nat k <= buzzerTimeout m ->
  ticks k m = set_buzzerTimeout (buzzerTimeout m - Z.of_nat k) m.
Proof.
  induction k as [| k IH]; intros m Hr Hk.
  - cbn [ticks Z.of_nat]; rewrite Z.sub_0_r.
    symmetry; apply set_buzzerTimeout_same.
  - cbn [ticks]; rewrite tick_counting by lia.
    rewrite IH by (cbn; lia).
    rewrite set_buzzerTimeout_twice; cbn [buzzerTimeout set_buzzerTimeout].
    f_equal; lia.
Qed.

Lemma compute_timeout_range f d :
  0 <= d < 65536 -> 0 <= compute_timeout f d < 65536.
Proof.
  intros H; unfold compute_timeout.
  destruct (f =? 1000); [exact H | apply u16_range].
Qed.

(** ** The finished flag implies the idle configuration *)

Lemma init_idle m0 : idle_reference (init m0) = true.
Proof.
  apply idle_reference_intro; try reflexivity.
  apply testbit_clear_bit; unfold PB2; lia.
Qed.

Lemma playNote_finished n d v m : buzzerFinished (playNote n d v m) = 0.
Proof.
  unfold playNote.
  destruct ((n =? SILENT_NOTE) || (v =? 0)); apply playFrequency_finished.
Qed.

Lemma tick_preserves_idle m :
  (buzzerFinished m <> 0 -> idle_reference m = true) ->
  buzzerFinished (TIMER1_OVF_vect m) <> 0 ->
  idle_reference (TIMER1_OVF_vect m) = true.
Proof.
  intros Inv Hf.
  destruct (Z.eq_dec (buzzerTimeout m) 0) as [E | NE].
  - apply tick_expiring; exact E.
  - unfold TIMER1_OVF_vect in *.
    apply Z.eqb_neq in NE; rewrite NE in *.
    apply Inv; exact Hf.
Qed.

Lemma reachable_run es : forall m, reachable m -> reachable (run es m).
Proof.
  induction es as [| e es IH]; intros m Hm; [exact Hm |].
  apply IH, reach_step, Hm.
Qed.

(** C4: in every state reachable from [init] by [playFrequency] and
    [playNote] calls and executions of the overflow handler, a set finished
    flag implies that the buzzer pin is an input and that timer1 is in the
    idle 1 kHz configuration (prescaler 1, TOP = F_CPU / 1000, duty 0). *)
Theorem finished_implies_idle m :
  reachable m -> buzzerFinished m <> 0 -> idle_reference m = true.
Proof.
  induction 1 as [m0 | e m Hm IH]; intros Hf.
  - apply init_idle.
  - destruct e as [f d v | n d v |]; cbn [step] in *.
    + rewrite playFrequency_finished in Hf; contradiction.
    + rewrite playNote_finished in Hf; contradiction.
    + apply tick_preserves_idle; assumption.
Qed.

Lemma finished_implies_idle_witness :
  reachable (run [PlayFrequency 440 2 15; Tick] (init power_on))
  /\ buzzerFinished (run [PlayFrequency 440 2 15; Tick] (init power_on)) <> 0
  /\ idle_reference (run [PlayFrequency 440 2 15; Tick] (init power_on)) = true.
Proof.
  assert (R : reachable (run [PlayFrequency 440 2 15; Tick] (init power_on))).
  { apply reachable_run, reach_init. }
  split; [exact R |].
  split; [vm_compute; discriminate |].
  apply (finished_implies_idle _ R); vm_compute; discriminate.
Defined.

(** ** Playing and finishing *)

Section Countdown.
Variables (freq duration volume : Z) (m : machine).
Hypothesis duration_range : 0 <= duration < 65536.

Let m' := playFrequency freq duration volume m.
Let N := buzzerTimeout m'.

Lemma stored_timeout_range : 0 <= N < 65536.
Proof.
  subst N m'; rewrite playFrequency_timeout.
  apply compute_timeout_range, duration_range.
Qed.

Lemma playing_during_countdown k :
  Z.of_nat k <= N -> isPlaying (ticks k m') = 1.
Proof.
  intros Hk; rewrite ticks_counting by (apply stored_timeout_range || exact Hk).
  unfold isPlaying; cbn [buzzerFinished set_buzzerTimeout].
  subst m'; rewrite playFrequency_finished; reflexivity.
Qed.

Lemma expiry_after_countdown :
  buzzerFinished (ticks (S (Z.to_nat N)) m') = 1
  /\ idle_reference (ticks (S (Z.to_nat N)) m') = true.
Proof.
  pose proof stored_timeout_range as HN.
  rewrite ticks_succ_r.
  apply tick_expiring.
  rewrite ticks_counting by (fold N; lia).
  cbn [buzzerTimeout set_buzzerTimeout]; fold N; lia.
Qed.
End Countdown.

(** C3, amended: after any [playFrequency] call, with [N] the stored tick
    timeout, [isPlaying()] returns 1 immediately and after each of the first
    [N] executions of the overflow handler; after execution [N + 1] it
    returns 0 and the peripheral is in the idle 1 kHz configuration. *)
Theorem playing_until_timeout_plus_one freq duration volume m :
  0 <= duration < 65536 ->
  let m' := playFrequency freq duration volume m in
  let N := buzzerTimeout m' in
  isPlaying m' = 1
  /\ (forall k, Z.of_nat k <= N -> isPlaying (ticks k m') = 1)
  /\ isPlaying (ticks (S (Z.to_nat N)) m') = 0
  /\ idle_reference (ticks (S (Z.to_nat N)) m') = true.
Proof.
  intros Hd m' N.
  pose proof (stored_timeout_range freq duration volume m Hd) as HN.
  destruct (expiry_after_countdown freq duration volume m Hd) as [Hf Hi].
  repeat split.
  - apply (playing_during_countdown freq duration volume m Hd 0%nat).
    cbn; apply HN.
  - intros k Hk; apply playing_during_countdown; assumption.
  - unfold isPlaying; subst m' N; rewrite Hf; reflexivity.
  - exact Hi.
Qed.

Lemma playing_until_timeout_plus_one_witness :
  0 <= 1000 < 65536
  /\ (let m' := playFrequency 440 1000 15 (init power_on) in
      let N := buzzerTimeout m' in
      isPlaying m' = 1
      /\ (forall k, Z.of_nat k <= N -> isPlaying (ticks k m') = 1)
      /\ isPlaying (ticks (S (Z.to_nat N)) m') = 0
      /\ idle_reference (ticks (S (Z.to_nat N)) m') = true).
Proof.
  split; [lia |].
  apply (playing_until_timeout_plus_one 440 1000 15 (init power_on)); lia.
Defined.

(** C3 as stated fails: [playFrequency(440, 1000, 15)] stores 440, and after
    exactly 440 executions of the handler [isPlaying()] still returns 1; the
    configuration is not the idle one.  Execution 441 ends the tone. *)
Lemma still_playing_after_440_ticks :
  let m' := playFrequency 440 1000 15 (init power_on) in
  buzzerTimeout m' = 440
  /\ isPlaying m' = 1
  /\ isPlaying (ticks 440 m') = 1
  /\ idle_reference (ticks 440 m') = false
  /\ isPlaying (ticks 441 m') = 0.
Proof. vm_compute; repeat split. Qed.

(** ** Decoding the frequency argument *)

Lemma testbit_u16_high f n : 0 <= f < 65536 -> 16 <= n -> Z.testbit f n = false.
Proof.
  intros Hf Hn.
  destruct (Z.eq_dec f 0) as [-> | Hz]; [apply Z.bits_0 |].
  apply Z.bits_above_log2; [lia |].
  assert (Z.log2 f < 16) by (apply Z.log2_lt_pow2; lia).
  lia.
Qed.

Lemma land_DIV_BY_10 f :
  0 <= f < 65536 ->
  Z.land f DIV_BY_10 = if f <? 32768 then 0 else 32768.
Proof.
  intros Hf.
  assert (Hb : Z.testbit f 15 = negb (f <? 32768)).
  { destruct (Z.ltb_spec f 32768) as [Hlt | Hge]; cbn [negb].
    - apply Z.testbit_false; [lia |].
      change (2 ^ 15) with 32768; rewrite Z.div_small by lia; reflexivity.
    - apply Z.testbit_true; [lia |].
      change (2 ^ 15) with 32768.
      replace (f / 32768) with 1; [reflexivity |].
      apply Z.div_unique with (r := f - 32768); lia. }
  apply Z.bits_inj'; intros n Hn.
  rewrite Z.land_spec.
  change DIV_BY_10 with (2 ^ 15).
  rewrite Z.pow2_bits_eqb by lia.
  destruct (Z.eqb_spec 15 n) as [<- | Hne].
  - rewrite Hb, andb_true_r.
    destruct (f <? 32768); cbn [negb]; [symmetry; apply Z.bits_0 |].
    change 32768 with (2 ^ 15); rewrite Z.pow2_bits_true; [reflexivity | lia].
  - rewrite andb_false_r.
    destruct (f <? 32768); [symmetry; apply Z.bits_0 |].
    change 32768 with (2 ^ 15); rewrite Z.pow2_bits_false; [reflexivity | lia].
Qed.

Lemma clear_DIV_BY_10 f :
  0 <= f < 65536 -> Z.land f (Z.lnot DIV_BY_10) = f mod 32768.
Proof.
  intros Hf.
  apply Z.bits_inj'; intros n Hn.
  rewrite Z.land_spec, Z.lnot_spec by exact Hn.
  change DIV_BY_10 with (2 ^ 15); change 32768 with (2 ^ 15).
  rewrite Z.pow2_bits_eqb by lia.
  destruct (Z.lt_ge_cases n 15) as [Hlt | Hge].
  - rewrite Z.mod_pow2_bits_low by lia.
    destruct (Z.eqb_spec 15 n); [lia | apply andb_true_r].
  - rewrite Z.mod_pow2_bits_high by lia.
    destruct (Z.eqb_spec 15 n) as [E | NE]; [apply andb_false_r |].
    rewrite testbit_u16_high by lia; reflexivity.
Qed.

(** A plain argument is a frequency in Hz; with bit 15 set, the low fifteen
    bits are a frequency in tenths of a Hz. *)
Lemma decode_plain f : 0 <= f < 32768 -> decode_frequency f = (1, f).
Proof.
  intros Hf; unfold decode_frequency.
  rewrite land_DIV_BY_10 by lia.
  destruct (Z.ltb_spec f 32768); [reflexivity | lia].
Qed.

Lemma decode_tenths t :
  0 <= t < 32768 -> decode_frequency (DIV_BY_10 + t) = (10, t).
Proof.
  intros Ht; unfold decode_frequency.
  set (f := DIV_BY_10 + t).
  assert (Hf : f = 32768 + t) by reflexivity.
  rewrite land_DIV_BY_10, clear_DIV_BY_10 by lia.
  destruct (Z.ltb_spec f 32768); [lia |].
  cbn [Z.eqb]; f_equal.
  symmetry; apply Z.mod_unique with (q := 1); lia.
Qed.

(** ** Clock source and counter top, case by case *)

Lemma clock_and_top_hz_fast f :
  400 < f < 65536 ->
  clock_and_top 1 f =
  (Z.min f 10000, 20000000 / Z.min f 10000, TIMER1_CLK_1).
Proof.
  intros Hf; unfold clock_and_top; cbv zeta.
  change (u16 (400 * 1)) with 400.
  destruct (Z.gtb_spec f 400); [| lia].
  assert (E : (if f >? 10000 then 10000 else f) = Z.min f 10000).
  { destruct (Z.gtb_spec f 10000); lia. }
  rewrite E.
  assert (0 <= 20000000 / Z.min f 10000 < 65536).
  { split; [apply Z.div_pos; lia |].
    apply Z.div_lt_upper_bound; lia. }
  rewrite u16_small by assumption; reflexivity.
Qed.

Lemma clock_and_top_hz_slow f :
  0 <= f <= 400 ->
  clock_and_top 1 f = (Z.max f 40, 2500000 / Z.max f 40, TIMER1_CLK_8).
Proof.
  intros Hf; unfold clock_and_top; cbv zeta.
  change (u16 (400 * 1)) with 400; change (u8 (40 * 1)) with 40.
  destruct (Z.gtb_spec f 400); [lia |].
  assert (E : (if f <? 40 then 40 else f) = Z.max f 40).
  { destruct (Z.ltb_spec f 40); lia. }
  rewrite E; change (1 =? 10) with false; cbv iota.
  assert (0 <= 2500000 / Z.max f 40 < 65536).
  { split; [apply Z.div_pos; lia |].
    apply Z.div_lt_upper_bound; lia. }
  rewrite u16_small by assumption; reflexivity.
Qed.

Lemma clock_and_top_tenths_fast t :
  4000 < t < 65536 ->
  clock_and_top 10 t =
  (Z.min t 10000, 20000000 / Z.min t 10000, TIMER1_CLK_1).
Proof.
  intros Ht; unfold clock_and_top; cbv zeta.
  change (u16 (400 * 10)) with 4000.
  destruct (Z.gtb_spec t 4000); [| lia].
  assert (E : (if t >? 10000 then 10000 else t) = Z.min t 10000).
  { destruct (Z.gtb_spec t 10000); lia. }
  rewrite E.
  assert (0 <= 20000000 / Z.min t 10000 < 65536).
  { split; [apply Z.div_pos; lia |].
    apply Z.div_lt_upper_bound; lia. }
  rewrite u16_small by assumption; reflexivity.
Qed.

(** In the slow branch [unsigned char val = 40 * multiplier] holds
    400 mod 256 = 144 for tenths, so the floor applied is 14.4 Hz. *)
Lemma clock_and_top_tenths_slow t :
  0 <= t <= 4000 ->
  clock_and_top 10 t =
  (Z.max t 144, u16 (25000000 / Z.max t 144), TIMER1_CLK_8).
Proof.
  intros Ht; unfold clock_and_top; cbv zeta.
  change (u16 (400 * 10)) with 4000; change (u8 (40 * 10)) with 144.
  destruct (Z.gtb_spec t 4000); [lia |].
  assert (E : (if t <? 144 then 144 else t) = Z.max t 144).
  { destruct (Z.ltb_spec t 144); lia. }
  rewrite E; reflexivity.
Qed.

(** ** Frequency clamping *)

Lemma hz_results f :
  0 <= f < 32768 ->
  clamped_frequency f = Z.max 40 (Z.min f 10000)
  /\ timeout_frequency f = Z.max 40 (Z.min f 10000)
  /\ prescaler_bits f = (if f <=? 400 then TIMER1_CLK_8 else TIMER1_CLK_1)
  /\ counter_top f =
     (if f <=? 400 then 2500000 else 20000000) / Z.max 40 (Z.min f 10000).
Proof.
  intros Hf.
  unfold clamped_frequency, timeout_frequency, prescaler_bits, counter_top.
  rewrite decode_plain by exact Hf.
  destruct (Z.leb_spec f 400) as [Hle | Hgt].
  - rewrite clock_and_top_hz_slow by lia.
    replace (Z.max 40 (Z.min f 10000)) with (Z.max f 40) by lia.
    repeat split.
  - rewrite clock_and_top_hz_fast by lia.
    replace (Z.max 40 (Z.min f 10000)) with (Z.min f 10000) by lia.
    repeat split.
Qed.

Lemma tenths_results t :
  0 <= t < 32768 ->
  let c := if t <=? 4000 then Z.max t 144 else Z.min t 10000 in
  clamped_frequency (DIV_BY_10 + t) = c
  /\ timeout_frequency (DIV_BY_10 + t) = (c + 5) / 10
  /\ prescaler_bits (DIV_BY_10 + t) =
     (if t <=? 4000 then TIMER1_CLK_8 else TIMER1_CLK_1)
  /\ counter_top (DIV_BY_10 + t) =
     (if t <=? 4000 then u16 (25000000 / c) else 20000000 / c).
Proof.
  intros Ht c; subst c.
  unfold clamped_frequency, timeout_frequency, prescaler_bits, counter_top.
  rewrite decode_tenths by exact Ht.
  unfold round_to_hz; cbn [Z.eqb Pos.eqb].
  destruct (Z.leb_spec t 4000) as [Hle | Hgt].
  - rewrite clock_and_top_tenths_slow by lia.
    rewrite u16_small by lia; repeat split.
  - rewrite clock_and_top_tenths_fast by lia.
    rewrite u16_small by lia; repeat split.
Qed.

(** Arguments in Hz are clamped to 40 .. 10000 Hz. *)
Lemma hz_frequency_clamped f :
  0 <= f < 32768 ->
  40 <= timeout_frequency f <= 10000
  /\ (40 <= f <= 10000 -> timeout_frequency f = f)
  /\ (f < 40 -> timeout_frequency f = 40)
  /\ (10000 < f -> timeout_frequency f = 10000).
Proof.
  intros Hf; destruct (hz_results f Hf) as (_ & -> & _).
  repeat split; lia.
Qed.

(** C2: every frequency argument, tenths of a Hz included, is claimed to be
    clamped into 40 Hz .. 10 kHz.  For the argument [DIV_BY_10 | 200]
    (20.0 Hz) the code keeps 200 tenths: the floor it compares with is
    [unsigned char val = 40 * 10], which is 144.  The timeout is computed
    for 20 Hz and the counter top 25000000 / 200 = 125000 wraps to 59464. *)
Theorem tenths_floor_is_not_40_hz :
  true_tenths (DIV_BY_10 + 200) = 200
  /\ clamped_frequency (DIV_BY_10 + 200) = 200
  /\ timeout_frequency (DIV_BY_10 + 200) = 20
  /\ counter_top (DIV_BY_10 + 200) = 59464
  /\ OCR1A (playFrequency (DIV_BY_10 + 200) 1000 15 (init power_on)) = 59464
  /\ buzzerTimeout (playFrequency (DIV_BY_10 + 200) 1000 15 (init power_on))
     = 20.
Proof. vm_compute; repeat split. Qed.

(** ** Prescaler and counter top *)

(** For arguments in Hz within 40 .. 10000 the prescaler is 8 up to 400 Hz
    and 1 above, and the top is the truncated quotient of the timer clock by
    the frequency. *)
Lemma hz_prescaler_and_top f :
  40 <= f <= 10000 ->
  let p := prescaler_of (prescaler_bits f) in
  p = (if f <=? 400 then 8 else 1)
  /\ counter_top f = (F_CPU / p) / f
  /\ counter_top f * f <= F_CPU / p < (counter_top f + 1) * f.
Proof.
  intros Hf p; subst p.
  destruct (hz_results f) as (_ & _ & -> & ->); [lia |].
  replace (Z.max 40 (Z.min f 10000)) with f by lia.
  destruct (f <=? 400); cbn [prescaler_of Z.eqb Pos.eqb TIMER1_CLK_1 TIMER1_CLK_8].
  - change (F_CPU / 8) with 2500000.
    pose proof (Z.mul_div_le 2500000 f) as H1.
    pose proof (Z.mul_succ_div_gt 2500000 f) as H2.
    repeat split; lia.
  - change (F_CPU / 1) with 20000000.
    pose proof (Z.mul_div_le 20000000 f) as H1.
    pose proof (Z.mul_succ_div_gt 20000000 f) as H2.
    repeat split; lia.
Qed.

(** Tenths of a Hz between 40.0 and 400.0 Hz: prescaler 8 and the top for
    the true frequency. *)
Lemma tenths_prescaler_and_top t :
  400 <= t <= 4000 ->
  prescaler_bits (DIV_BY_10 + t) = TIMER1_CLK_8
  /\ counter_top (DIV_BY_10 + t) = 25000000 / t
  /\ counter_top (DIV_BY_10 + t) * t <= 10 * (F_CPU / 8)
     < (counter_top (DIV_BY_10 + t) + 1) * t.
Proof.
  intros Ht.
  destruct (tenths_results t) as (_ & _ & -> & ->); [lia |].
  destruct (Z.leb_spec t 4000); [| lia].
  replace (Z.max t 144) with t by lia.
  assert (0 <= 25000000 / t < 65536).
  { split; [apply Z.div_pos; lia | apply Z.div_lt_upper_bound; lia]. }
  rewrite u16_small by assumption.
  change (10 * (F_CPU / 8)) with 25000000.
  pose proof (Z.mul_div_le 25000000 t) as H1.
  pose proof (Z.mul_succ_div_gt 25000000 t) as H2.
  repeat split; lia.
Qed.

(** C5: for every frequency in 40 Hz .. 10 kHz the programmed
    clock / (prescaler * top) is claimed to be within quantisation error of
    the requested frequency.  For [DIV_BY_10 | 5000] (500.0 Hz) the code
    takes the prescaler 1 branch and divides 20000000 by the tenths value:
    the top is 4000, which is the period of 5000 Hz, while the timeout is
    computed for 500 Hz. *)
Theorem tenths_500_hz_programs_5_khz :
  true_tenths (DIV_BY_10 + 5000) = 5000
  /\ prescaler_of (prescaler_bits (DIV_BY_10 + 5000)) = 1
  /\ counter_top (DIV_BY_10 + 5000) = 4000
  /\ F_CPU / (prescaler_of (prescaler_bits (DIV_BY_10 + 5000))
              * counter_top (DIV_BY_10 + 5000)) = 5000
  /\ timeout_frequency (DIV_BY_10 + 5000) = 500
  /\ clock_select (playFrequency (DIV_BY_10 + 5000) 1000 15 (init power_on))
     = TIMER1_CLK_1
  /\ OCR1A (playFrequency (DIV_BY_10 + 5000) 1000 15 (init power_on)) = 4000.
Proof. vm_compute; repeat split. Qed.

(** C10: when the tenths flag is set and the tenths value [t] exceeds 4000,
    [playFrequency] takes the prescaler 1 branch, clamps the tenths value
    (not the true frequency) against 10000 and writes 20000000 divided by
    the tenths value to the top register.  The top is therefore the one of
    a tone of [t] Hz, ten times the true frequency of [t] tenths, and the
    programmed period is always shorter than the period of the true
    frequency. *)
Theorem tenths_above_4000_divide_by_value t duration volume m :
  4000 < t < 32768 ->
  let m' := playFrequency (DIV_BY_10 + t) duration volume m in
  true_tenths (DIV_BY_10 + t) = t
  /\ clock_select m' = TIMER1_CLK_1
  /\ clamped_frequency (DIV_BY_10 + t) = Z.min t 10000
  /\ OCR1A m' = 20000000 / Z.min t 10000
  /\ (t <= 10000 ->
      OCR1A m' = 20000000 / t
      /\ OCR1A m' * t <= F_CPU < (OCR1A m' + 1) * t)
  /\ (OCR1A m' + 1) * t < 10 * F_CPU.
Proof.
  intros Ht m'; subst m'.
  rewrite playFrequency_OCR1A.
  unfold clock_select; rewrite playFrequency_TCCR1B.
  destruct (tenths_results t) as (Hc & _ & Hp & Htop); [lia |].
  destruct (Z.leb_spec t 4000); [lia |].
  rewrite Hp, Htop, Hc; clear Hp Htop Hc.
  unfold true_tenths; rewrite decode_tenths by lia; cbn [Z.eqb Pos.eqb].
  assert (Hsmall : 20000000 / Z.min t 10000 < 5000).
  { apply Z.div_lt_upper_bound; lia. }
  assert (Hpos : 0 <= 20000000 / Z.min t 10000).
  { apply Z.div_pos; lia. }
  unfold F_CPU.
  repeat split.
  - apply select_clock; left; reflexivity.
  - replace (Z.min t 10000) with t by lia; reflexivity.
  - replace (Z.min t 10000) with t by lia.
    pose proof (Z.mul_div_le 20000000 t); lia.
  - replace (Z.min t 10000) with t by lia.
    pose proof (Z.mul_succ_div_gt 20000000 t); lia.
  - nia.
Qed.

Lemma tenths_above_4000_divide_by_value_witness :
  4000 < 5000 < 32768
  /\ clock_select (playFrequency (DIV_BY_10 + 5000) 1000 15 (init power_on))
     = TIMER1_CLK_1
  /\ OCR1A (playFrequency (DIV_BY_10 + 5000) 1000 15 (init power_on))
     = 20000000 / Z.min 5000 10000.
Proof.
  split; [lia |].
  pose proof (tenths_above_4000_divide_by_value 5000 1000 15 (init power_on))
    as H.
  destruct H as (_ & Hcs & _ & Htop & _); [lia |].
  split; [exact Hcs | exact Htop].
Defined.

(** ** Tick timeout *)

Lemma timeout_frequency_range freq :
  0 <= freq < 65536 -> 0 <= timeout_frequency freq <= 10000.
Proof.
  intros Hf.
  destruct (Z.lt_ge_cases freq 32768) as [Hlt | Hge].
  - destruct (hz_results freq) as (_ & -> & _); lia.
  - replace freq with (DIV_BY_10 + (freq - 32768))
      by (change DIV_BY_10 with 32768; lia).
    destruct (tenths_results (freq - 32768)) as (_ & -> & _); [lia |].
    set (c := if freq - 32768 <=? 4000 then _ else _).
    assert (0 <= c <= 10000).
    { subst c; destruct (Z.leb_spec (freq - 32768) 4000); lia. }
    split; [apply Z.div_pos; lia |].
    apply Z.lt_succ_r, Z.div_lt_upper_bound; lia.
Qed.

(** The product is formed in [long] without overflow; only the conversion
    of the quotient to [unsigned int] can wrap. *)
Lemma compute_timeout_spec f d :
  0 <= f <= 10000 -> 0 <= d < 65536 ->
  compute_timeout f d =
  if f =? 1000 then d else (d * f / 1000) mod 65536.
Proof.
  intros Hf Hd; unfold compute_timeout.
  destruct (f =? 1000); [reflexivity |].
  assert (Hp : 0 <= d * f < 2147483648) by nia.
  assert (Hs : s32 (d * f) = d * f).
  { unfold s32; rewrite Z.mod_small by lia; lia. }
  rewrite Hs, Z.quot_div_nonneg by lia.
  reflexivity.
Qed.

(** C6, amended: the stored tick timeout equals the duration unchanged when
    the frequency rounded to Hz is 1000, and otherwise equals
    duration * frequency / 1000 (truncating division) reduced modulo 2^16,
    which is the quotient itself whenever that is below 65536;
    [playNote(SILENT_NOTE, 500, 15)] is [playFrequency(1000, 500, 0)] and
    stores exactly 500 with the pin left an input. *)
Theorem stored_timeout_modulo_2_16 freq duration volume m :
  0 <= freq < 65536 -> 0 <= duration < 65536 ->
  let f := timeout_frequency freq in
  let N := buzzerTimeout (playFrequency freq duration volume m) in
  (f = 1000 -> N = duration)
  /\ (f <> 1000 -> N = (duration * f / 1000) mod 65536)
  /\ (f <> 1000 -> duration * f / 1000 < 65536 -> N = duration * f / 1000)
  /\ playNote SILENT_NOTE 500 15 m = playFrequency 1000 500 0 m
  /\ timeout_frequency 1000 = 1000
  /\ buzzerTimeout (playNote SILENT_NOTE 500 15 m) = 500
  /\ pin_is_input (playNote SILENT_NOTE 500 15 m) = true.
Proof.
  intros Hfreq Hd f N; subst f N.
  pose proof (timeout_frequency_range freq Hfreq) as Hr.
  rewrite playFrequency_timeout, compute_timeout_spec by assumption.
  split; [| split; [| split]].
  - intros ->; reflexivity.
  - intros Hne; apply Z.eqb_neq in Hne; rewrite Hne; reflexivity.
  - intros Hne Hlt; apply Z.eqb_neq in Hne; rewrite Hne.
    apply Z.mod_small; split; [apply Z.div_pos; nia | exact Hlt].
  - change (playNote SILENT_NOTE 500 15 m) with (playFrequency 1000 500 0 m).
    unfold pin_is_input.
    rewrite playFrequency_timeout, playFrequency_DDRB.
    cbn [Z.eqb]; rewrite testbit_clear_bit by (unfold PB2; lia).
    repeat split.
Qed.

Lemma stored_timeout_modulo_2_16_witness :
  0 <= 10000 < 65536 /\ 0 <= 10000 < 65536
  /\ buzzerTimeout (playFrequency 10000 10000 15 (init power_on))
     = (10000 * timeout_frequency 10000 / 1000) mod 65536.
Proof.
  split; [lia |]; split; [lia |].
  pose proof
    (stored_timeout_modulo_2_16 10000 10000 15 (init power_on)) as H.
  destruct H as (_ & H & _); [lia | lia |].
  apply H; vm_compute; discriminate.
Defined.

(** C6 as stated fails: [playFrequency(10000, 10000, 15)] has effective
    frequency 10000 Hz, so the claimed timeout is 10000 * 10000 / 1000 =
    100000; the 16-bit variable receives 34464. *)
Lemma timeout_wraps_at_10_khz_10_s :
  timeout_frequency 10000 = 10000
  /\ 10000 * timeout_frequency 10000 / 1000 = 100000
  /\ buzzerTimeout (playFrequency 10000 10000 15 (init power_on)) = 34464
  /\ buzzerTimeout (playFrequency 10000 10000 15 (init power_on))
     <> 10000 * timeout_frequency 10000 / 1000.
Proof. vm_compute; repeat split; discriminate. Qed.

(** ** Volume *)

Lemma counter_top_range freq : 0 <= counter_top freq < 65536.
Proof.
  unfold counter_top, clock_and_top.
  destruct (decode_frequency freq) as [mu fr].
  destruct (fr >? u16 (400 * mu)); [apply u16_range |].
  destruct (mu =? 10); apply u16_range.
Qed.

Lemma playFrequency_volume_above_15 freq duration v m :
  15 < v -> playFrequency freq duration v m = playFrequency freq duration 15 m.
Proof.
  intros Hv; unfold playFrequency.
  destruct (Z.eqb_spec v 0) as [E | _]; [lia |].
  destruct (Z.gtb_spec v 15) as [_ | H]; [| lia].
  reflexivity.
Qed.

Lemma shiftr_antitone a p q : 0 <= a -> 0 <= q <= p -> Z.shiftr a p <= Z.shiftr a q.
Proof.
  intros Ha Hpq.
  rewrite !Z.shiftr_div_pow2 by lia.
  apply Z.div_le_compat_l; [exact Ha |].
  split; [apply Z.pow_pos_nonneg; lia | apply Z.pow_le_mono_r; lia].
Qed.

(** C7: volume 0 makes the buzzer pin an input whatever the frequency; a
    volume above 15 gives the same machine state as volume 15; for volumes
    1 .. 15 the pin is an output, OCR1A holds the counter top computed for
    the frequency and the duty cycle register OCR1B holds that counter top
    shifted right by 16 - volume, which does not decrease when the volume
    grows; for an argument in Hz the duty at volume 15 is at least 1000
    timer counts. *)
Theorem volume_sets_pin_and_duty freq duration m :
  pin_is_input (playFrequency freq duration 0 m) = true
  /\ (forall v, 15 < v ->
      playFrequency freq duration v m = playFrequency freq duration 15 m)
  /\ (forall v, 1 <= v <= 15 ->
      pin_is_input (playFrequency freq duration v m) = false
      /\ OCR1A (playFrequency freq duration v m) = counter_top freq
      /\ OCR1B (playFrequency freq duration v m)
         = Z.shiftr (counter_top freq) (16 - v)
      /\ OCR1B (playFrequency freq duration v m)
         = Z.shiftr (OCR1A (playFrequency freq duration v m)) (16 - v))
  /\ (forall v w, 1 <= v <= w -> w <= 15 ->
      OCR1B (playFrequency freq duration v m)
      <= OCR1B (playFrequency freq duration w m))
  /\ (0 <= freq < 32768 ->
      2000 <= counter_top freq
      /\ 1000 <= OCR1B (playFrequency freq duration 15 m)).
Proof.
  split; [| split; [| split; [| split]]].
  - unfold pin_is_input; rewrite playFrequency_DDRB; cbn [Z.eqb].
    rewrite testbit_clear_bit by (unfold PB2; lia); reflexivity.
  - intros v Hv; apply playFrequency_volume_above_15, Hv.
  - intros v Hv; unfold pin_is_input.
    rewrite playFrequency_DDRB, playFrequency_OCR1B, playFrequency_OCR1A.
    destruct (Z.gtb_spec v 15); [lia |].
    destruct (Z.eqb_spec v 0); [lia |].
    rewrite testbit_set_bit by (unfold PB2; lia).
    repeat split.
  - intros v w Hvw Hw; rewrite !playFrequency_OCR1B.
    destruct (Z.gtb_spec v 15); [lia |].
    destruct (Z.gtb_spec w 15); [lia |].
    apply shiftr_antitone; [apply counter_top_range | lia].
  - intros Hf.
    assert (Htop : 2000 <= counter_top freq).
    { destruct (hz_results freq Hf) as (_ & _ & _ & ->).
      destruct (Z.leb_spec freq 400); apply Z.div_le_lower_bound; lia. }
    split; [exact Htop |].
    rewrite playFrequency_OCR1B.
    change (16 - (if 15 >? 15 then 15 else 15)) with 1.
    rewrite Z.shiftr_div_pow2 by lia.
    apply Z.div_le_lower_bound; [reflexivity | lia].
Qed.

Lemma volume_sets_pin_and_duty_witness :
  15 < 200
  /\ playFrequency 440 1000 200 (init power_on)
     = playFrequency 440 1000 15 (init power_on)
  /\ 1 <= 3 <= 15
  /\ pin_is_input (playFrequency 440 1000 3 (init power_on)) = false
  /\ OCR1A (playFrequency 440 1000 3 (init power_on)) = counter_top 440
  /\ OCR1B (playFrequency 440 1000 3 (init power_on))
     = Z.shiftr (counter_top 440) (16 - 3)
  /\ 1 <= 3 <= 9 /\ 9 <= 15
  /\ OCR1B (playFrequency 440 1000 3 (init power_on))
     <= OCR1B (playFrequency 440 1000 9 (init power_on))
  /\ 0 <= 440 < 32768
  /\ 1000 <= OCR1B (playFrequency 440 1000 15 (init power_on)).
Proof.
  destruct (volume_sets_pin_and_duty 440 1000 (init power_on))
    as (_ & Hclamp & Hduty & Hmono & Hhz).
  destruct (Hduty 3 ltac:(lia)) as (Hpin & Htop & Hb & _).
  split; [lia |].
  split; [apply Hclamp; lia |].
  split; [lia |].
  split; [exact Hpin |].
  split; [exact Htop |].
  split; [exact Hb |].
  split; [lia |].
  split; [lia |].
  split; [apply Hmono; lia |].
  split; [lia |].
  apply Hhz; lia.
Defined.

(** ** Notes *)

(** Top octave: the 16-bit formula of the source agrees with doubling seven
    times and rounding, as long as [v * 64 + 2] fits sixteen bits. *)
Lemma top_octave_exact v :
  0 <= v < 1024 -> top_octave v = top_octave_reference v.
Proof.
  intros Hv; unfold top_octave, top_octave_reference.
  rewrite (u16_small (v * 64)) by lia.
  rewrite u16_small by lia.
  change (2 ^ 7) with 128.
  pose proof (Z.div_mod (v * 64 + 2) 5 ltac:(lia)) as Hdm.
  pose proof (Z.mod_pos_bound (v * 64 + 2) 5 ltac:(lia)) as Hr.
  apply Z.div_unique with (r := 2 * ((v * 64 + 2) mod 5) + 1); lia.
Qed.

Lemma base_frequency_range key :
  0 <= key < 12 -> 412 <= base_frequency key <= 778.
Proof.
  intros Hk.
  assert (H : key = 0 \/ key = 1 \/ key = 2 \/ key = 3 \/ key = 4 \/ key = 5
              \/ key = 6 \/ key = 7 \/ key = 8 \/ key = 9 \/ key = 10
              \/ key = 11) by lia.
  repeat (destruct H as [-> | H]; [cbn; lia |]).
  subst key; cbn; lia.
Qed.

(** C9: for each of the twelve table values the formula of the top octave,
    (v * 64 + 2) / 5 as the source computes it in 16 bits, equals the
    reference (v * 2^7 + 5) / 10 over unbounded integers. *)
Theorem top_octave_refines_doubling key :
  0 <= key < 12 ->
  top_octave (base_frequency key) = top_octave_reference (base_frequency key)
  /\ top_octave (base_frequency key) = (base_frequency key * 64 + 2) / 5.
Proof.
  intros Hk; pose proof (base_frequency_range key Hk) as Hb.
  split; [apply top_octave_exact; lia |].
  unfold top_octave.
  rewrite (u16_small (base_frequency key * 64)) by lia.
  rewrite u16_small by lia; reflexivity.
Qed.

Lemma top_octave_refines_doubling_witness :
  0 <= 11 < 12
  /\ top_octave (base_frequency 11) = top_octave_reference (base_frequency 11).
Proof.
  split; [lia |].
  apply (top_octave_refines_doubling 11); lia.
Defined.

(** A property checked on every element of [notes_from lo len] holds on the
    whole interval. *)
Lemma notes_from_complete (check : Z -> bool) lo len :
  forallb check (notes_from lo len) = true ->
  forall n, lo <= n < lo + Z.of_nat len -> check n = true.
Proof.
  intros Hall n Hn.
  rewrite forallb_forall in Hall; apply Hall.
  unfold notes_from; apply in_map_iff.
  exists (Z.to_nat (n - lo)); split; [lia |].
  apply in_seq; lia.
Qed.

Lemma note_tenths_step n :
  16 <= n < 111 -> note_tenths n <= note_tenths (n + 1).
Proof.
  intros Hn; apply Z.leb_le.
  apply (notes_from_complete
           (fun k => note_tenths k <=? note_tenths (k + 1)) 16 95);
    [vm_compute; reflexivity | lia].
Qed.

Lemma note_tenths_monotone d : forall m,
  16 <= m -> m + Z.of_nat d <= 111 ->
  note_tenths m <= note_tenths (m + Z.of_nat d).
Proof.
  induction d as [| d IH]; intros m Hlo Hhi.
  - rewrite Z.add_0_r; lia.
  - replace (m + Z.of_nat (S d)) with (m + Z.of_nat d + 1) by lia.
    pose proof (IH m Hlo ltac:(lia)).
    pose proof (note_tenths_step (m + Z.of_nat d) ltac:(lia)).
    lia.
Qed.

Lemma note_tenths_octave n :
  16 <= n -> n + 12 <= 111 ->
  Z.abs (note_tenths (n + 12) - 2 * note_tenths n) <= 10.
Proof.
  intros Hlo Hhi; apply Z.leb_le.
  apply (notes_from_complete
           (fun k => Z.abs (note_tenths (k + 12) - 2 * note_tenths k) <=? 10)
           16 84);
    [vm_compute; reflexivity | lia].
Qed.

(** C8: over the notes 16 .. 111 the true frequency produced by the
    note-to-frequency computation of [playNote] does not decrease with the
    note number, and twelve notes up it is twice the frequency within one Hz
    (ten tenths) of rounding; note 16 gives 412 tenths with the tenths flag
    set and note 28 gives exactly 824 tenths. *)
Theorem note_frequency_monotone_and_doubling :
  (forall m n, 16 <= m <= n -> n <= 111 -> note_tenths m <= note_tenths n)
  /\ (forall n, 16 <= n -> n + 12 <= 111 ->
      Z.abs (note_tenths (n + 12) - 2 * note_tenths n) <= 10)
  /\ note_frequency 16 = DIV_BY_10 + 412
  /\ note_tenths 16 = 412
  /\ note_frequency 28 = DIV_BY_10 + 824
  /\ note_tenths 28 = 2 * note_tenths 16.
Proof.
  split; [| split; [| repeat split]].
  - intros m n Hmn Hn.
    replace n with (m + Z.of_nat (Z.to_nat (n - m))) by lia.
    apply note_tenths_monotone; lia.
  - exact note_tenths_octave.
Qed.

Lemma note_frequency_monotone_and_doubling_witness :
  16 <= 57 <= 69 /\ 69 <= 111
  /\ note_tenths 57 <= note_tenths 69
  /\ Z.abs (note_tenths (57 + 12) - 2 * note_tenths 57) <= 10.
Proof.
  destruct note_frequency_monotone_and_doubling as (Hmono & Hoct & _).
  split; [lia |]; split; [lia |].
  split; [apply Hmono; lia | apply Hoct; lia].
Defined.

(** * Further properties of the driver *)

(** ** playNote: note numbers and the timer period *)

Lemma playNote_is_playFrequency note duration volume m :
  exists f v, playNote note duration volume m = playFrequency f duration v m.
Proof.
  unfold playNote.
  destruct ((note =? SILENT_NOTE) || (volume =? 0)); eauto.
Qed.

Lemma note_frequency_clamps note :
  0 <= note < 256 ->
  note_frequency note = note_frequency (Z.max 16 (Z.min note 111)).
Proof.
  intros Hn; apply Z.eqb_eq.
  apply (notes_from_complete
           (fun k => note_frequency k
                     =? note_frequency (Z.max 16 (Z.min k 111))) 0 256);
    [vm_compute; reflexivity | lia].
Qed.

(** X1: a note number other than [SILENT_NOTE] is clamped into 16 .. 111:
    notes below 16 play as note 16 and notes above 111 as note 111. *)
Theorem playNote_clamps_note note duration volume m :
  0 <= note < 256 -> note <> SILENT_NOTE ->
  playNote note duration volume m
  = playNote (Z.max 16 (Z.min note 111)) duration volume m.
Proof.
  intros Hn Hs; unfold playNote.
  rewrite <- note_frequency_clamps by exact Hn.
  destruct (Z.eqb_spec note SILENT_NOTE) as [E | _]; [contradiction |].
  destruct (Z.eqb_spec (Z.max 16 (Z.min note 111)) SILENT_NOTE) as [E | _];
    [unfold SILENT_NOTE in E; lia | reflexivity].
Qed.

Lemma playNote_clamps_note_witness :
  0 <= 200 < 256 /\ 200 <> SILENT_NOTE
  /\ playNote 200 300 15 (init power_on) = playNote 111 300 15 (init power_on).
Proof.
  split; [lia |]; split; [discriminate |].
  apply (playNote_clamps_note 200 300 15 (init power_on));
    [lia | discriminate].
Defined.

(** X2: for every note that sounds, the frequency lies in 41.2 Hz .. 9958 Hz,
    the prescaler is 8 up to 400 Hz and 1 above, the value written to OCR1A
    is the truncated quotient of the timer clock by the note's frequency,
    and the timeout is computed from the frequency rounded to Hz. *)
Theorem playNote_programs_note_period note duration volume m :
  0 <= note < 256 -> note <> SILENT_NOTE -> volume <> 0 ->
  let m' := playNote note duration volume m in
  let tt := note_tenths note in
  let p := prescaler_of (clock_select m') in
  412 <= tt <= 99580
  /\ p = (if tt <=? 4000 then 8 else 1)
  /\ OCR1A m' * tt <= 10 * (F_CPU / p) < (OCR1A m' + 1) * tt
  /\ buzzerTimeout m' = compute_timeout ((tt + 5) / 10) duration.
Proof.
  intros Hn Hs Hv m' tt p.
  assert (Hok : note_period_ok note = true).
  { apply (notes_from_complete note_period_ok 0 256);
      [vm_compute; reflexivity | lia]. }
  assert (Hm : m' = playFrequency (note_frequency note) duration
                      (if volume >? 15 then 15 else volume) m).
  { subst m'; unfold playNote.
    destruct (Z.eqb_spec note SILENT_NOTE); [contradiction |].
    destruct (Z.eqb_spec volume 0); [contradiction | reflexivity]. }
  assert (Hcs : clock_select m' = prescaler_bits (note_frequency note)).
  { rewrite Hm; unfold clock_select; rewrite playFrequency_TCCR1B.
    apply select_clock.
    unfold prescaler_bits, clock_and_top.
    destruct (decode_frequency (note_frequency note)) as [mu fr].
    destruct (fr >? u16 (400 * mu)); [left | right]; reflexivity. }
  subst p; rewrite Hcs, Hm, playFrequency_OCR1A, playFrequency_timeout.
  unfold note_period_ok in Hok; fold tt in Hok; cbv zeta in Hok.
  repeat (apply andb_prop in Hok; destruct Hok as [Hok ?]).
  repeat match goal with
         | H : (_ <=? _) = true |- _ => apply Z.leb_le in H
         | H : (_ <? _) = true |- _ => apply Z.ltb_lt in H
         | H : (_ =? _) = true |- _ => apply Z.eqb_eq in H
         end.
  repeat split; try assumption.
  f_equal; assumption.
Qed.

Lemma playNote_programs_note_period_witness :
  0 <= 57 < 256 /\ 57 <> SILENT_NOTE /\ 15 <> 0
  /\ OCR1A (playNote 57 200 15 (init power_on)) * note_tenths 57
     <= 10 * (F_CPU / prescaler_of
                        (clock_select (playNote 57 200 15 (init power_on)))).
Proof.
  split; [lia |]; split; [discriminate |]; split; [discriminate |].
  pose proof (playNote_programs_note_period 57 200 15 (init power_on)) as H.
  destruct H as (_ & _ & [H _] & _); [lia | discriminate | discriminate |].
  exact H.
Defined.

(** X3: a silent note, or any note at volume 0, leaves the pin an input,
    runs timer1 at 1 kHz from the undivided clock and stores the duration
    itself as the timeout, whatever the duration; the tone counts as
    playing. *)
Theorem silent_note_counts_milliseconds note duration volume m :
  note = SILENT_NOTE \/ volume = 0 ->
  let m' := playNote note duration volume m in
  buzzerTimeout m' = duration
  /\ pin_is_input m' = true
  /\ clock_select m' = TIMER1_CLK_1
  /\ OCR1A m' = F_CPU / 1000
  /\ isPlaying m' = 1.
Proof.
  intros Hs m'.
  assert (Hm : m' = playFrequency 1000 duration 0 m).
  { subst m'; unfold playNote.
    destruct Hs as [-> | ->]; [reflexivity |].
    rewrite orb_true_r; reflexivity. }
  rewrite Hm; unfold pin_is_input, clock_select, isPlaying.
  rewrite playFrequency_timeout, playFrequency_DDRB, playFrequency_TCCR1B,
    playFrequency_OCR1A, playFrequency_finished.
  cbn [Z.eqb]; rewrite testbit_clear_bit by (unfold PB2; lia).
  repeat split.
  apply select_clock; left; reflexivity.
Qed.

Lemma silent_note_counts_milliseconds_witness :
  (60 = SILENT_NOTE \/ 0 = 0)
  /\ buzzerTimeout (playNote 60 65535 0 (init power_on)) = 65535.
Proof.
  split; [right; reflexivity |].
  apply (silent_note_counts_milliseconds 60 65535 0 (init power_on)).
  right; reflexivity.
Defined.

(** ** Durations that are timed without wrap-around *)

(** X4: as the comment of [playFrequency] states, a duration of up to
    6553 ms is timed exactly at every frequency: the stored timeout is the
    duration at 1 kHz and the truncated quotient duration * frequency / 1000
    otherwise, below 65536.  The bound is tight: 6554 ms at 10 kHz wraps
    to 4. *)
Theorem durations_to_6553_ms_do_not_wrap freq duration volume m :
  0 <= freq < 65536 -> 0 <= duration <= 6553 ->
  let f := timeout_frequency freq in
  let N := buzzerTimeout (playFrequency freq duration volume m) in
  N = (if f =? 1000 then duration else duration * f / 1000)
  /\ duration * f / 1000 < 65536
  /\ buzzerTimeout (playFrequency 10000 6554 volume m) = 4.
Proof.
  intros Hf Hd f N; subst f N.
  pose proof (timeout_frequency_range freq Hf) as Hr.
  assert (Hq : 0 <= duration * timeout_frequency freq / 1000 < 65536).
  { split; [apply Z.div_pos; nia |].
    apply Z.div_lt_upper_bound; nia. }
  rewrite !playFrequency_timeout, compute_timeout_spec by lia.
  split; [| split; [lia | reflexivity]].
  destruct (timeout_frequency freq =? 1000); [reflexivity |].
  apply Z.mod_small; exact Hq.
Qed.

Lemma durations_to_6553_ms_do_not_wrap_witness :
  0 <= 10000 < 65536 /\ 0 <= 6553 <= 6553
  /\ buzzerTimeout (playFrequency 10000 6553 15 (init power_on))
     = (if timeout_frequency 10000 =? 1000 then 6553
        else 6553 * timeout_frequency 10000 / 1000).
Proof.
  split; [lia |]; split; [lia |].
  apply (durations_to_6553_ms_do_not_wrap 10000 6553 15 (init power_on)); lia.
Defined.

(** ** After the tone *)

Lemma tick_keeps_idle m :
  idle_reference m = true -> idle_reference (TIMER1_OVF_vect m) = true.
Proof.
  intros Hi.
  destruct (Z.eq_dec (buzzerTimeout m) 0) as [E | NE].
  - apply tick_expiring; exact E.
  - unfold TIMER1_OVF_vect.
    apply Z.eqb_neq in NE; rewrite NE; exact Hi.
Qed.

Lemma tick_keeps_finished m :
  buzzerFinished m <> 0 -> buzzerFinished (TIMER1_OVF_vect m) <> 0.
Proof.
  intros Hf; unfold TIMER1_OVF_vect.
  destruct (buzzerTimeout m =? 0); [cbn; discriminate | exact Hf].
Qed.

(** X5: the handler never starts a tone.  Once the finished flag is set
    and the timer idle, any number of further overflows - also when the
    16-bit counter wraps round and reaches zero again - leave [isPlaying()]
    at 0 and the peripheral in the idle configuration. *)
Theorem finished_and_idle_are_stable k : forall m,
  buzzerFinished m <> 0 -> idle_reference m = true ->
  isPlaying (ticks k m) = 0 /\ idle_reference (ticks k m) = true.
Proof.
  induction k as [| k IH]; intros m Hf Hi.
  - split; [| exact Hi].
    unfold isPlaying; cbn [ticks];
    destruct (Z.eqb_spec (buzzerFinished m) 0);
      [contradiction | reflexivity].
  - cbn [ticks]; apply IH; [apply tick_keeps_finished | apply tick_keeps_idle];
      assumption.
Qed.

Lemma finished_and_idle_are_stable_witness :
  buzzerFinished (ticks 1 (init power_on)) <> 0
  /\ idle_reference (ticks 1 (init power_on)) = true
  /\ isPlaying (ticks 5 (ticks 1 (init power_on))) = 0.
Proof.
  assert (Hf : buzzerFinished (ticks 1 (init power_on)) <> 0)
    by (vm_compute; discriminate).
  assert (Hi : idle_reference (ticks 1 (init power_on)) = true)
    by (vm_compute; reflexivity).
  split; [exact Hf |]; split; [exact Hi |].
  apply (finished_and_idle_are_stable 5 _ Hf Hi).
Defined.

(** X6: [init] does not touch the two globals.  With the zero-initialised
    globals of a fresh start, [isPlaying()] returns 1 after [init()] although
    no tone was requested; the first overflow sets the flag. *)
Theorem playing_reported_until_first_overflow m0 :
  buzzerFinished m0 = 0 -> buzzerTimeout m0 = 0 ->
  isPlaying (init m0) = 1
  /\ idle_reference (init m0) = true
  /\ isPlaying (TIMER1_OVF_vect (init m0)) = 0.
Proof.
  intros Hf Ht.
  split; [unfold isPlaying, init; cbn; rewrite Hf; reflexivity |].
  split; [apply init_idle |].
  assert (E : buzzerTimeout (init m0) = 0) by exact Ht.
  destruct (tick_expiring _ E) as [H1 _].
  unfold isPlaying; rewrite H1; reflexivity.
Qed.

Lemma playing_reported_until_first_overflow_witness :
  buzzerFinished power_on = 0 /\ buzzerTimeout power_on = 0
  /\ isPlaying (init power_on) = 1
  /\ isPlaying (TIMER1_OVF_vect (init power_on)) = 0.
Proof.
  split; [reflexivity |]; split; [reflexivity |].
  destruct (playing_reported_until_first_overflow power_on) as (H1 & _ & H2);
    [reflexivity | reflexivity |].
  split; [exact H1 | exact H2].
Defined.

(** ** Duty cycle *)

(** X7: for every volume from 1 up the compare value is at most half the
    counter top (a duty cycle of at most 50%), and from volume 15 up it is
    exactly half the top, rounded down. *)
Theorem duty_cycle_at_most_half freq duration volume m :
  1 <= volume ->
  let m' := playFrequency freq duration volume m in
  0 <= OCR1B m' /\ 2 * OCR1B m' <= OCR1A m'
  /\ (15 <= volume -> OCR1B m' = OCR1A m' / 2).
Proof.
  intros Hv m'; subst m'.
  rewrite playFrequency_OCR1B, playFrequency_OCR1A.
  pose proof (counter_top_range freq) as Ht.
  set (v := if volume >? 15 then 15 else volume).
  assert (Hs : 1 <= 16 - v <= 15).
  { subst v; destruct (Z.gtb_spec volume 15); lia. }
  assert (Hle : Z.shiftr (counter_top freq) (16 - v)
                <= Z.shiftr (counter_top freq) 1).
  { apply shiftr_antitone; lia. }
  assert (Hpos : 0 <= Z.shiftr (counter_top freq) (16 - v)).
  { apply Z.shiftr_nonneg; lia. }
  assert (Hhalf : Z.shiftr (counter_top freq) 1 = counter_top freq / 2).
  { rewrite Z.shiftr_div_pow2 by lia; reflexivity. }
  pose proof (Z.mul_div_le (counter_top freq) 2 ltac:(lia)).
  split; [exact Hpos |]; split; [lia |].
  intros H15.
  replace (16 - v) with 1; [exact Hhalf |].
  subst v; destruct (Z.gtb_spec volume 15); lia.
Qed.

Lemma duty_cycle_at_most_half_witness :
  1 <= 15
  /\ 2 * OCR1B (playFrequency 440 1000 15 (init power_on))
     <= OCR1A (playFrequency 440 1000 15 (init power_on)).
Proof.
  split; [lia |].
  apply (duty_cycle_at_most_half 440 1000 15 (init power_on)); lia.
Defined.

(** ** What the driver leaves alone *)

Lemma prescaler_bits_cases freq :
  prescaler_bits freq = TIMER1_CLK_1 \/ prescaler_bits freq = TIMER1_CLK_8.
Proof.
  unfold prescaler_bits, clock_and_top.
  destruct (decode_frequency freq) as [mu fr].
  destruct (fr >? u16 (400 * mu)); [left | right]; reflexivity.
Qed.

Lemma keep_mode_bits x cs :
  cs = TIMER1_CLK_1 \/ cs = TIMER1_CLK_8 ->
  Z.land (Z.lor (Z.land x 0xF8) cs) 0xF8 = Z.land x 0xF8.
Proof.
  intros Hcs.
  rewrite Z.land_lor_distr_l, <- Z.land_assoc.
  change (Z.land 0xF8 0xF8) with 0xF8.
  destruct Hcs as [-> | ->]; cbn [Z.land TIMER1_CLK_1 TIMER1_CLK_8 Pos.land];
    apply Z.lor_0_r.
Qed.

Lemma testbit_clear_other d b n :
  0 <= b -> 0 <= n -> n <> b ->
  Z.testbit (Z.land d (Z.lnot (Z.shiftl 1 b))) n = Z.testbit d n.
Proof.
  intros Hb Hn Hne.
  rewrite Z.land_spec, Z.lnot_spec, Z.shiftl_1_l by lia.
  rewrite Z.pow2_bits_false by lia; apply andb_true_r.
Qed.

Lemma testbit_set_other d b n :
  0 <= b -> 0 <= n -> n <> b ->
  Z.testbit (Z.lor d (Z.shiftl 1 b)) n = Z.testbit d n.
Proof.
  intros Hb Hn Hne.
  rewrite Z.lor_spec, Z.shiftl_1_l.
  rewrite Z.pow2_bits_false by lia; apply orb_false_r.
Qed.

Lemma playFrequency_frame freq duration volume m :
  TCCR1A (playFrequency freq duration volume m) = TCCR1A m
  /\ TCCR1C (playFrequency freq duration volume m) = TCCR1C m
  /\ TCNT1 (playFrequency freq duration volume m) = TCNT1 m
  /\ TIFR1 (playFrequency freq duration volume m) = TIFR1 m
  /\ TIMSK1 (playFrequency freq duration volume m) = TIMSK1 m.
Proof.
  unfold playFrequency.
  destruct (decode_frequency freq) as [mu fr].
  destruct (clock_and_top mu fr) as [[f' top] cs].
  destruct (volume =? 0); repeat split.
Qed.

Lemma tick_frame m :
  SREG (TIMER1_OVF_vect m) = SREG m
  /\ TCCR1A (TIMER1_OVF_vect m) = TCCR1A m
  /\ TCCR1C (TIMER1_OVF_vect m) = TCCR1C m
  /\ TCNT1 (TIMER1_OVF_vect m) = TCNT1 m
  /\ TIFR1 (TIMER1_OVF_vect m) = TIFR1 m
  /\ TIMSK1 (TIMER1_OVF_vect m) = TIMSK1 m.
Proof.
  unfold TIMER1_OVF_vect; destruct (buzzerTimeout m =? 0); repeat split.
Qed.

Lemma tick_TCCR1B m :
  Z.land (TCCR1B (TIMER1_OVF_vect m)) 0xF8 = Z.land (TCCR1B m) 0xF8.
Proof.
  unfold TIMER1_OVF_vect; destruct (buzzerTimeout m =? 0); [| reflexivity].
  cbn [TCCR1B set_buzzerFinished set_DDRB set_OCR1B set_OCR1A set_TCCR1B
       set_buzzerTimeout].
  apply keep_mode_bits; left; reflexivity.
Qed.

Lemma tick_DDRB m :
  DDRB (TIMER1_OVF_vect m) = DDRB m
  \/ DDRB (TIMER1_OVF_vect m) = Z.land (DDRB m) (Z.lnot (Z.shiftl 1 PB2)).
Proof.
  unfold TIMER1_OVF_vect; destruct (buzzerTimeout m =? 0);
    [right | left]; reflexivity.
Qed.

Lemma step_keeps_mode e m :
  TCCR1A (step e m) = TCCR1A m
  /\ Z.land (TCCR1B (step e m)) 0xF8 = Z.land (TCCR1B m) 0xF8
  /\ TCCR1C (step e m) = TCCR1C m
  /\ TIMSK1 (step e m) = TIMSK1 m.
Proof.
  destruct e as [f d v | n d v |]; cbn [step].
  - destruct (playFrequency_frame f d v m) as (H1 & H2 & _ & _ & H3).
    rewrite playFrequency_TCCR1B, keep_mode_bits
      by apply prescaler_bits_cases.
    repeat split; assumption.
  - destruct (playNote_is_playFrequency n d v m) as (f & v' & ->).
    destruct (playFrequency_frame f d v' m) as (H1 & H2 & _ & _ & H3).
    rewrite playFrequency_TCCR1B, keep_mode_bits
      by apply prescaler_bits_cases.
    repeat split; assumption.
  - destruct (tick_frame m) as (_ & H1 & H2 & _ & _ & H3).
    rewrite tick_TCCR1B; repeat split; assumption.
Qed.

(** X8: in every state reachable from [init] the waveform generation and
    compare output bits (TCCR1A = 0x23, bits 7..3 of TCCR1B = 0x18,
    TCCR1C = 0) and the interrupt mask (TIMSK1 = overflow interrupt only)
    are the ones [init] wrote: play calls and the handler change only the
    clock select bits. *)
Theorem timer_mode_is_invariant m :
  reachable m ->
  TCCR1A m = 0x23 /\ Z.land (TCCR1B m) 0xF8 = 0x18
  /\ TCCR1C m = 0 /\ TIMSK1 m = Z.shiftl 1 TOIE1.
Proof.
  induction 1 as [m0 | e m Hm IH].
  - repeat split.
  - destruct (step_keeps_mode e m) as (-> & -> & -> & ->); exact IH.
Qed.

Lemma timer_mode_is_invariant_witness :
  reachable (run [PlayNote 57 200 15; Tick; Tick] (init power_on))
  /\ Z.land (TCCR1B (run [PlayNote 57 200 15; Tick; Tick] (init power_on)))
       0xF8 = 0x18.
Proof.
  assert (R : reachable
                (run [PlayNote 57 200 15; Tick; Tick] (init power_on)))
    by (apply reachable_run, reach_init).
  split; [exact R |].
  apply (timer_mode_is_invariant _ R).
Defined.

Lemma step_keeps_other_pins e m n :
  0 <= n -> n <> PB2 -> Z.testbit (DDRB (step e m)) n = Z.testbit (DDRB m) n.
Proof.
  intros Hn Hne.
  assert (Hplay : forall f d v,
             Z.testbit (DDRB (playFrequency f d v m)) n = Z.testbit (DDRB m) n).
  { intros f d v; rewrite playFrequency_DDRB.
    destruct (v =? 0);
      [apply testbit_clear_other | apply testbit_set_other];
      unfold PB2 in *; lia. }
  destruct e as [f d v | k d v |]; cbn [step].
  - apply Hplay.
  - destruct (playNote_is_playFrequency k d v m) as (f & v' & ->); apply Hplay.
  - destruct (tick_DDRB m) as [-> | ->]; [reflexivity |].
    apply testbit_clear_other; unfold PB2 in *; lia.
Qed.

(** X9: no function of the driver changes the direction of a port B pin
    other than PB2: after [init] and any sequence of play calls and handler
    executions every other bit of DDRB is as it was before [init]. *)
Theorem other_port_b_pins_untouched es m0 n :
  0 <= n -> n <> PB2 ->
  Z.testbit (DDRB (run es (init m0))) n = Z.testbit (DDRB m0) n.
Proof.
  intros Hn Hne.
  assert (Hinit : Z.testbit (DDRB (init m0)) n = Z.testbit (DDRB m0) n).
  { unfold init; cbn [DDRB set_TIMSK1 set_TIFR1 set_TCNT1 set_OCR1B set_OCR1A
                        set_TCCR1C set_TCCR1B set_TCCR1A set_DDRB].
    apply testbit_clear_other; unfold PB2 in *; lia. }
  rewrite <- Hinit; generalize (init m0) as m; clear Hinit.
  induction es as [| e es IH]; intros m; [reflexivity |].
  cbn [run fold_left]; fold (run es (step e m)).
  rewrite IH; apply step_keeps_other_pins; assumption.
Qed.

Lemma other_port_b_pins_untouched_witness :
  0 <= 5 /\ 5 <> PB2
  /\ Z.testbit
       (DDRB (run [PlayFrequency 440 2 15; Tick]
                (init (set_DDRB 0x24 power_on)))) 5
     = Z.testbit (DDRB (set_DDRB 0x24 power_on)) 5.
Proof.
  split; [lia |]; split; [discriminate |].
  apply (other_port_b_pins_untouched
           [PlayFrequency 440 2 15; Tick] (set_DDRB 0x24 power_on) 5);
    [lia | discriminate].
Defined.

(** ** A play call overrides what came before *)

Lemma lor_after_clear d b : Z.lor (Z.land d (Z.lnot b)) b = Z.lor d b.
Proof.
  apply Z.bits_inj'; intros n Hn.
  rewrite !Z.lor_spec, Z.land_spec, Z.lnot_spec by exact Hn.
  destruct (Z.testbit d n), (Z.testbit b n); reflexivity.
Qed.

Lemma clear_after_lor d b : Z.land (Z.lor d b) (Z.lnot b) = Z.land d (Z.lnot b).
Proof.
  apply Z.bits_inj'; intros n Hn.
  rewrite !Z.land_spec, Z.lor_spec, Z.lnot_spec by exact Hn.
  destruct (Z.testbit d n), (Z.testbit b n); reflexivity.
Qed.

Lemma clear_twice d b : Z.land (Z.land d b) b = Z.land d b.
Proof. rewrite <- Z.land_assoc, Z.land_diag; reflexivity. Qed.

Lemma lor_twice d b : Z.lor (Z.lor d b) b = Z.lor d b.
Proof. rewrite <- Z.lor_assoc, Z.lor_diag; reflexivity. Qed.

Lemma same_context_refl m : same_context m m.
Proof. repeat split. Qed.

Lemma same_context_trans m1 m2 m3 :
  same_context m1 m2 -> same_context m2 m3 -> same_context m1 m3.
Proof.
  unfold same_context; intros H12 H23.
  decompose [and] H12; decompose [and] H23.
  repeat split; congruence.
Qed.

Lemma machine_ext m1 m2 :
  SREG m1 = SREG m2 -> DDRB m1 = DDRB m2 -> TCCR1A m1 = TCCR1A m2 ->
  TCCR1B m1 = TCCR1B m2 -> TCCR1C m1 = TCCR1C m2 -> OCR1A m1 = OCR1A m2 ->
  OCR1B m1 = OCR1B m2 -> TCNT1 m1 = TCNT1 m2 -> TIFR1 m1 = TIFR1 m2 ->
  TIMSK1 m1 = TIMSK1 m2 -> buzzerTimeout m1 = buzzerTimeout m2 ->
  buzzerFinished m1 = buzzerFinished m2 -> m1 = m2.
Proof.
  destruct m1, m2; cbn [SREG DDRB TCCR1A TCCR1B TCCR1C OCR1A OCR1B TCNT1
                        TIFR1 TIMSK1 buzzerTimeout buzzerFinished].
  intros; subst; reflexivity.
Qed.

Lemma playFrequency_same_context freq duration volume m1 m2 :
  same_context m1 m2 ->
  playFrequency freq duration volume m1 = playFrequency freq duration volume m2.
Proof.
  intros (Hs & Hd & Ha & Hb & Hc & Hn & Hi & Hk).
  destruct (playFrequency_frame freq duration volume m1)
    as (A1 & A2 & A3 & A4 & A5).
  destruct (playFrequency_frame freq duration volume m2)
    as (B1 & B2 & B3 & B4 & B5).
  apply machine_ext;
    rewrite ?playFrequency_SREG, ?playFrequency_DDRB, ?playFrequency_TCCR1B,
      ?playFrequency_OCR1A, ?playFrequency_OCR1B, ?playFrequency_timeout,
      ?playFrequency_finished; try congruence.
  destruct (volume =? 0); [exact Hd |].
  rewrite <- (lor_after_clear (DDRB m1)), <- (lor_after_clear (DDRB m2)), Hd.
  reflexivity.
Qed.

Lemma playFrequency_context freq duration volume m :
  same_context (playFrequency freq duration volume m) m.
Proof.
  destruct (playFrequency_frame freq duration volume m)
    as (H1 & H2 & H3 & H4 & H5).
  unfold same_context.
  rewrite playFrequency_SREG, playFrequency_DDRB, playFrequency_TCCR1B.
  rewrite lor_twice, keep_mode_bits by apply prescaler_bits_cases.
  repeat split; try assumption.
  destruct (volume =? 0); [apply clear_twice | apply clear_after_lor].
Qed.

Lemma tick_context m : same_context (TIMER1_OVF_vect m) m.
Proof.
  destruct (tick_frame m) as (H0 & H1 & H2 & H3 & H4 & H5).
  unfold same_context; rewrite H0, tick_TCCR1B.
  repeat split; try assumption.
  destruct (tick_DDRB m) as [-> | ->]; [reflexivity | apply clear_twice].
Qed.

Lemma step_context e m : same_context (step e m) m.
Proof.
  destruct e as [f d v | n d v |]; cbn [step].
  - apply playFrequency_context.
  - destruct (playNote_is_playFrequency n d v m) as (f & v' & ->).
    apply playFrequency_context.
  - apply tick_context.
Qed.

Lemma run_context es : forall m, same_context (run es m) m.
Proof.
  induction es as [| e es IH]; intros m; [apply same_context_refl |].
  cbn [run fold_left]; fold (run es (step e m)).
  eapply same_context_trans; [apply IH | apply step_context].
Qed.

(** X10: a play call abandons whatever went before.  After any sequence of
    earlier play calls and handler executions, [playFrequency] and
    [playNote] leave the machine in exactly the state they would leave had
    nothing happened in between: nothing of an earlier tone (counter, flag,
    prescaler, top, duty cycle, pin direction) survives. *)
Theorem play_call_overrides_history es freq note duration volume m :
  playFrequency freq duration volume (run es m)
  = playFrequency freq duration volume m
  /\ playNote note duration volume (run es m)
     = playNote note duration volume m.
Proof.
  pose proof (run_context es m) as Hc.
  split; [apply playFrequency_same_context, Hc |].
  unfold playNote.
  destruct ((note =? SILENT_NOTE) || (volume =? 0));
    apply playFrequency_same_context, Hc.
Qed.

(** ** play: waiting for a note *)






Lemma u8_small z : 0 <= z < 256 -> u8 z = z.
Proof. intros H; unfold u8; apply Z.mod_small; exact H. Qed.

(** ** play: sequences that end within 255 characters *)



Section EndWithin256.
Variables (sequence : string) (k : Z).
Hypothesis k_range : 0 <= k < 256.
Hypothesis k_stops : is_consumed (char_at sequence k) = false.



Lemma play_from_step fuel i octave m :
  play_from (S fuel) sequence i octave m =
  let c := char_at sequence i in
  if (c =? Ascii.zero)%char then Some m
  else
    match key_of_letter c with
    | Some note =>
      bind (sharps fuel sequence (u8 (i + 1)) note) (fun '(i, note) =>
      bind (flats fuel sequence i note) (fun '(i, note) =>
      bind (wait_while_playing fuel
              (playNote (u8 (note + octave * 12)) 200 15 m)) (fun m =>
      play_from fuel sequence i octave m)))
    | None =>
      if (c =? ">")%char then
        play_from fuel sequence (u8 (i + 1)) (u8 (octave + 1)) m
      else if (c =? "<")%char then
        play_from fuel sequence (u8 (i + 1)) (u8 (octave - 1)) m
      else Some m
    end.
Proof. reflexivity. Qed.

Lemma key_is_consumed c note :
  key_of_letter c = Some note -> is_consumed c = true.
Proof.
  intros H; unfold is_consumed, is_note_or_octave; rewrite H; reflexivity.
Qed.

End EndWithin256.



(** ** play: the 8-bit index *)

Section IndexWraps.
Variable sequence : string.
Hypothesis all_notes : forall i,
  0 <= i < 256 -> is_note_or_octave (char_at sequence i) = true.

Lemma u8_range z : 0 <= u8 z < 256.
Proof. unfold u8; apply Z.mod_pos_bound; lia. Qed.

Lemma note_or_octave_cases c :
  is_note_or_octave c = true ->
  (c =? Ascii.zero)%char = false
  /\ (c =? "+")%char = false /\ (c =? "-")%char = false
  /\ (key_of_letter c <> None \/ c = ">"%char \/ c = "<"%char).
Proof.
  unfold is_note_or_octave, key_of_letter.
  repeat match goal with
         | |- context [Ascii.eqb c ?x] =>
           destruct (Ascii.eqb_spec c x) as [-> | ?];
           [intros _; repeat split; try reflexivity;
            first [left; discriminate | right; left; reflexivity
                  | right; right; reflexivity] |]
         end.
  cbn; discriminate.
Qed.

Lemma play_from_wraps fuel : forall i octave m,
  0 <= i < 256 -> play_from fuel sequence i octave m = None.
Proof.
  induction fuel as [| fuel IH]; intros i octave m Hi; [reflexivity |].
  rewrite play_from_step; cbv zeta.
  destruct (note_or_octave_cases _ (all_notes i Hi)) as (-> & _ & _ & Hc).
  pose proof (u8_range (i + 1)) as Hi1.
  destruct (note_or_octave_cases _ (all_notes _ Hi1)) as (_ & Hp & Hm & _).
  destruct (key_of_letter (char_at sequence i)) as [note |] eqn:Ekey.
  - assert (Hs : sharps fuel sequence (u8 (i + 1)) note
                 = Some (u8 (i + 1), note)).
    { destruct fuel; cbn [sharps]; rewrite Hp; reflexivity. }
    assert (Hf : flats fuel sequence (u8 (i + 1)) note
                 = Some (u8 (i + 1), note)).
    { destruct fuel; cbn [flats]; rewrite Hm; reflexivity. }
    rewrite Hs; cbn [bind]; rewrite Hf; cbn [bind].
    destruct (wait_while_playing fuel _) as [m2 |]; cbn [bind];
      [apply IH; exact Hi1 | reflexivity].
  - destruct Hc as [Hc | [Hc | Hc]]; [congruence | |]; rewrite Hc.
    + cbn [Ascii.eqb Bool.eqb andb]; apply IH; exact Hi1.
    + cbn [Ascii.eqb Bool.eqb andb]; apply IH; exact Hi1.
Qed.
End IndexWraps.

(** X12: the index into the sequence is an [unsigned char].  When the first
    256 characters of a sequence are all note letters or octave marks, the
    index wraps from 255 to 0 before the terminator is reached and [play]
    never returns: it runs out of fuel whatever the fuel. *)
Theorem play_never_returns_past_255 sequence :
  (forall i, 0 <= i < 256 -> is_note_or_octave (char_at sequence i) = true) ->
  forall fuel m, play fuel sequence m = None.
Proof.
  intros Hall fuel m; unfold play.
  apply play_from_wraps; [exact Hall | lia].
Qed.

Lemma play_never_returns_past_255_witness :
  (forall i, 0 <= i < 256 ->
     is_note_or_octave (char_at (repeat_char 256 "c") i) = true)
  /\ play (Z.to_nat 100000) (repeat_char 256 "c") (init power_on) = None.
Proof.
  assert (H : forall i, 0 <= i < 256 ->
              is_note_or_octave (char_at (repeat_char 256 "c") i) = true).
  { apply (notes_from_complete
             (fun i => is_note_or_octave (char_at (repeat_char 256 "c") i))
             0 256).
    vm_compute; reflexivity. }
  split; [exact H |].
  apply (play_never_returns_past_255 (repeat_char 256 "c") H).
Defined.

(** ** play: the first character that is not understood *)

Lemma sharps_unfold fuel sequence i note :
  sharps fuel sequence i note =
  if (char_at sequence i =? "+")%char then
    match fuel with
    | O => None
    | S fuel' => sharps fuel' sequence (u8 (i + 1)) (u8 (note + 1))
    end
  else Some (i, note).
Proof. destruct fuel; reflexivity. Qed.

Lemma flats_unfold fuel sequence i note :
  flats fuel sequence i note =
  if (char_at sequence i =? "-")%char then
    match fuel with
    | O => None
    | S fuel' => flats fuel' sequence (u8 (i + 1)) (u8 (note - 1))
    end
  else Some (i, note).
Proof. destruct fuel; reflexivity. Qed.

Lemma not_consumed_cases c :
  is_consumed c = false ->
  key_of_letter c = None /\ (c =? ">")%char = false
  /\ (c =? "<")%char = false /\ (c =? "+")%char = false
  /\ (c =? "-")%char = false.
Proof.
  unfold is_consumed, is_note_or_octave; intros H.
  apply orb_false_elim in H; destruct H as [H Hm].
  apply orb_false_elim in H; destruct H as [H Hp].
  destruct (key_of_letter c); [discriminate |].
  apply orb_false_elim in H; destruct H as [Hu Hd].
  repeat split; assumption.
Qed.

Lemma play_from_stops fuel sequence i octave m :
  is_consumed (char_at sequence i) = false ->
  play_from (S fuel) sequence i octave m = Some m.
Proof.
  intros H; rewrite play_from_step; cbv zeta.
  destruct (not_consumed_cases _ H) as (-> & -> & -> & _).
  destruct (char_at sequence i =? Ascii.zero)%char; reflexivity.
Qed.

Section FirstUnknownCharacter.
Variables (s1 s2 : string) (k : Z).
Hypothesis k_range : 0 <= k < 256.
Hypothesis agree : forall i, 0 <= i < k -> char_at s1 i = char_at s2 i.
Hypothesis stop1 : is_consumed (char_at s1 k) = false.
Hypothesis stop2 : is_consumed (char_at s2 k) = false.

Lemma sharps_agree fuel : forall i note,
  0 <= i <= k ->
  sharps fuel s1 i note = sharps fuel s2 i note
  /\ forall i' note', sharps fuel s2 i note = Some (i', note') -> i <= i' <= k.
Proof.
  induction fuel as [| fuel IH]; intros i note Hi;
    rewrite (sharps_unfold _ s1), (sharps_unfold _ s2);
    (destruct (Z.eq_dec i k) as [-> | NE];
     [destruct (not_consumed_cases _ stop1) as (_ & _ & _ & -> & _);
      destruct (not_consumed_cases _ stop2) as (_ & _ & _ & -> & _);
      split; [reflexivity | intros i' n' [= <- <-]; lia]
     | rewrite <- (agree i) by lia;
       destruct (char_at s1 i =? "+")%char;
       [| split; [reflexivity | intros i' n' [= <- <-]; lia]]]).
  - split; [reflexivity | discriminate].
  - rewrite (u8_small (i + 1)) by lia.
    destruct (IH (i + 1) (u8 (note + 1)) ltac:(lia)) as [He Hr].
    split; [exact He |].
    intros i' n' Hs; specialize (Hr i' n' Hs); lia.
Qed.

Lemma flats_agree fuel : forall i note,
  0 <= i <= k ->
  flats fuel s1 i note = flats fuel s2 i note
  /\ forall i' note', flats fuel s2 i note = Some (i', note') -> i <= i' <= k.
Proof.
  induction fuel as [| fuel IH]; intros i note Hi;
    rewrite (flats_unfold _ s1), (flats_unfold _ s2);
    (destruct (Z.eq_dec i k) as [-> | NE];
     [destruct (not_consumed_cases _ stop1) as (_ & _ & _ & _ & ->);
      destruct (not_consumed_cases _ stop2) as (_ & _ & _ & _ & ->);
      split; [reflexivity | intros i' n' [= <- <-]; lia]
     | rewrite <- (agree i) by lia;
       destruct (char_at s1 i =? "-")%char;
       [| split; [reflexivity | intros i' n' [= <- <-]; lia]]]).
  - split; [reflexivity | discriminate].
  - rewrite (u8_small (i + 1)) by lia.
    destruct (IH (i + 1) (u8 (note - 1)) ltac:(lia)) as [He Hr].
    split; [exact He |].
    intros i' n' Hs; specialize (Hr i' n' Hs); lia.
Qed.

Lemma play_from_agree fuel : forall i octave m,
  0 <= i <= k ->
  play_from fuel s1 i octave m = play_from fuel s2 i octave m.
Proof.
  induction fuel as [| fuel IH]; intros i octave m Hi; [reflexivity |].
  destruct (Z.eq_dec i k) as [-> | NE].
  { rewrite !play_from_stops by assumption; reflexivity. }
  rewrite !play_from_step; cbv zeta.
  rewrite <- (agree i) by lia.
  set (c := char_at s1 i).
  assert (Hnext : is_consumed c = true ->
                  0 <= u8 (i + 1) <= k).
  { intros _; rewrite u8_small by lia; lia. }
  destruct (c =? Ascii.zero)%char; [reflexivity |].
  destruct (key_of_letter c) as [note |] eqn:Ekey.
  - specialize (Hnext (key_is_consumed _ _ Ekey)).
    destruct (sharps_agree fuel (u8 (i + 1)) note Hnext) as [-> Hr].
    destruct (sharps fuel s2 (u8 (i + 1)) note) as [[i2 n2] |];
      cbn [bind]; [| reflexivity].
    specialize (Hr i2 n2 eq_refl).
    destruct (flats_agree fuel i2 n2 ltac:(lia)) as [-> Hr'].
    destruct (flats fuel s2 i2 n2) as [[i3 n3] |]; cbn [bind];
      [| reflexivity].
    specialize (Hr' i3 n3 eq_refl).
    destruct (wait_while_playing fuel _) as [m2 |]; cbn [bind];
      [apply IH; lia | reflexivity].
  - destruct (Ascii.eqb_spec c ">") as [Eup | _].
    + apply IH, Hnext; rewrite Eup; reflexivity.
    + destruct (Ascii.eqb_spec c "<") as [Edn | _]; [| reflexivity].
      apply IH, Hnext; rewrite Edn; reflexivity.
Qed.
End FirstUnknownCharacter.

(** X13: [play] stops at the first character that is neither a note
    letter, an octave mark, a sharp nor a flat, exactly as it stops at the
    end of the string, and never looks at what follows: two sequences that
    agree up to such a character (within the first 256 positions) are
    played identically. *)
Theorem play_ignores_rest_after_unknown s1 s2 k :
  0 <= k < 256 ->
  (forall i, 0 <= i < k -> char_at s1 i = char_at s2 i) ->
  is_consumed (char_at s1 k) = false ->
  is_consumed (char_at s2 k) = false ->
  forall fuel m, play fuel s1 m = play fuel s2 m.
Proof.
  intros Hk Hagree H1 H2 fuel m; unfold play.
  apply (play_from_agree s1 s2 k Hk Hagree H1 H2); lia.
Qed.

Lemma play_ignores_rest_after_unknown_witness :
  0 <= 3 < 256
  /\ (forall i, 0 <= i < 3 -> char_at "a>b" i = char_at "a>b c+d" i)
  /\ is_consumed (char_at "a>b" 3) = false
  /\ is_consumed (char_at "a>b c+d" 3) = false
  /\ play (Z.to_nat 70000) "a>b" (init power_on)
     = play (Z.to_nat 70000) "a>b c+d" (init power_on).
Proof.
  assert (H : forall i, 0 <= i < 3 -> char_at "a>b" i = char_at "a>b c+d" i).
  { intros i Hi; apply Ascii.eqb_eq.
    apply (notes_from_complete
             (fun j => Ascii.eqb (char_at "a>b" j) (char_at "a>b c+d" j))
             0 3); [reflexivity | lia]. }
  split; [lia |]; split; [exact H |].
  split; [reflexivity |]; split; [reflexivity |].
  apply (play_ignores_rest_after_unknown "a>b" "a>b c+d" 3);
    [lia | exact H | reflexivity | reflexivity].
Defined.

(** ** playFrequency on the paths that are sound *)

(** X14: an argument in Hz (flag bit clear), whatever its value, is played
    at the argument clamped into 40 .. 10000 Hz: prescaler 8 up to 400 Hz
    and 1 above, OCR1A the truncated quotient of the timer clock by the
    clamped frequency (which fits 16 bits), and the timeout computed from
    the clamped frequency. *)
Theorem hz_argument_is_clamped_and_programmed freq duration volume m :
  0 <= freq < 32768 ->
  let m' := playFrequency freq duration volume m in
  let c := Z.max 40 (Z.min freq 10000) in
  let p := prescaler_of (clock_select m') in
  p = (if freq <=? 400 then 8 else 1)
  /\ OCR1A m' = (F_CPU / p) / c
  /\ 2000 <= OCR1A m' <= 62500
  /\ buzzerTimeout m' = compute_timeout c duration.
Proof.
  intros Hf m' c p.
  destruct (hz_results freq Hf) as (_ & Ht & Hp & Htop).
  assert (Hcs : clock_select m' = prescaler_bits freq).
  { subst m'; unfold clock_select; rewrite playFrequency_TCCR1B.
    apply select_clock, prescaler_bits_cases. }
  subst p m'; rewrite Hcs, Hp, playFrequency_OCR1A, playFrequency_timeout,
    Ht, Htop; fold c.
  assert (Hc : 40 <= c <= 10000) by (subst c; lia).
  destruct (Z.leb_spec freq 400) as [Hle | Hgt];
    cbn [prescaler_of Z.eqb Pos.eqb TIMER1_CLK_1 TIMER1_CLK_8].
  - assert (Hc' : c <= 400) by (subst c; lia).
    change (F_CPU / 8) with 2500000.
    repeat split; try reflexivity.
    + apply Z.div_le_lower_bound; lia.
    + apply Z.div_le_upper_bound; lia.
  - assert (Hc' : 401 <= c) by (subst c; lia).
    change (F_CPU / 1) with 20000000.
    repeat split; try reflexivity.
    + apply Z.div_le_lower_bound; lia.
    + apply Z.div_le_upper_bound; lia.
Qed.

Lemma hz_argument_is_clamped_and_programmed_witness :
  0 <= 20000 < 32768
  /\ OCR1A (playFrequency 20000 100 15 (init power_on))
     = (F_CPU / prescaler_of
                  (clock_select (playFrequency 20000 100 15 (init power_on))))
       / Z.max 40 (Z.min 20000 10000).
Proof.
  split; [lia |].
  pose proof (hz_argument_is_clamped_and_programmed 20000 100 15
                (init power_on)) as H.
  destruct H as (_ & H & _); [lia | exact H].
Defined.

(** X15: an argument in tenths of a Hz between 40.0 and 400.0 Hz is played
    at its true frequency: prescaler 8, OCR1A the truncated quotient of
    ten times the divided clock by the tenths value, and the timeout
    computed from the frequency rounded to the nearest Hz. *)
Theorem tenths_argument_up_to_400_hz t duration volume m :
  400 <= t <= 4000 ->
  let m' := playFrequency (DIV_BY_10 + t) duration volume m in
  clock_select m' = TIMER1_CLK_8
  /\ OCR1A m' = 10 * (F_CPU / 8) / t
  /\ OCR1A m' * t <= 10 * (F_CPU / 8) < (OCR1A m' + 1) * t
  /\ buzzerTimeout m' = compute_timeout ((t + 5) / 10) duration.
Proof.
  intros Ht m'; subst m'.
  destruct (tenths_prescaler_and_top t Ht) as (Hp & Htop & Hq).
  destruct (tenths_results t ltac:(lia)) as (_ & Hf & _).
  destruct (Z.leb_spec t 4000); [| lia].
  replace (Z.max t 144) with t in Hf by lia.
  unfold clock_select.
  rewrite playFrequency_TCCR1B, playFrequency_OCR1A, playFrequency_timeout,
    Hp, Hf.
  split; [apply select_clock; right; reflexivity |].
  split; [exact Htop |].
  split; [exact Hq | reflexivity].
Qed.

Lemma tenths_argument_up_to_400_hz_witness :
  400 <= 2616 <= 4000
  /\ OCR1A (playFrequency (DIV_BY_10 + 2616) 500 10 (init power_on))
     = 10 * (F_CPU / 8) / 2616.
Proof.
  split; [lia |].
  pose proof (tenths_argument_up_to_400_hz 2616 500 10 (init power_on)) as H.
  destruct H as (_ & H & _); [lia | exact H].
Defined.

(** ** The window between clearing the flag and cli() *)

Lemma playFrequency_split freq duration volume m :
  playFrequency freq duration volume m
  = write_registers freq duration volume (Z.land (TCCR1B m) 0xF8)
      (set_pin volume (set_buzzerFinished 0 m)).
Proof.
  unfold playFrequency, write_registers, set_pin.
  destruct (decode_frequency freq) as [mu fr].
  destruct (clock_and_top mu fr) as [[f' top] cs].
  destruct (volume =? 0); reflexivity.
Qed.

Lemma write_registers_fields freq duration volume hi m :
  buzzerFinished (write_registers freq duration volume hi m)
  = buzzerFinished m
  /\ DDRB (write_registers freq duration volume hi m) = DDRB m
  /\ OCR1A (write_registers freq duration volume hi m) = counter_top freq
  /\ TCCR1B (write_registers freq duration volume hi m)
     = Z.lor hi (prescaler_bits freq)
  /\ buzzerTimeout (write_registers freq duration volume hi m)
     = compute_timeout (timeout_frequency freq) duration.
Proof.
  unfold write_registers, counter_top, prescaler_bits, timeout_frequency.
  destruct (decode_frequency freq) as [mu fr].
  destruct (clock_and_top mu fr) as [[f' top] cs].
  repeat split.
Qed.

Lemma write_registers_ignores_timeout freq duration volume hi x m :
  write_registers freq duration volume hi (set_buzzerTimeout x m)
  = write_registers freq duration volume hi m.
Proof.
  unfold write_registers.
  destruct (decode_frequency freq) as [mu fr].
  destruct (clock_and_top mu fr) as [[f' top] cs].
  reflexivity.
Qed.

Lemma set_pin_timeout volume x m :
  set_pin volume (set_buzzerTimeout x m)
  = set_buzzerTimeout x (set_pin volume m).
Proof. unfold set_pin; destruct (volume =? 0); reflexivity. Qed.

Lemma overflow_interrupt_cases m :
  (overflow_interrupt m = m
   /\ interrupts_enabled m && Z.testbit (TIMSK1 m) TOIE1 = false)
  \/ (overflow_interrupt m = TIMER1_OVF_vect m
      /\ interrupts_enabled m && Z.testbit (TIMSK1 m) TOIE1 = true).
Proof.
  unfold overflow_interrupt.
  destruct (interrupts_enabled m && Z.testbit (TIMSK1 m) TOIE1);
    [right | left]; split; reflexivity.
Qed.

Lemma tick_keeps_gate m :
  interrupts_enabled (TIMER1_OVF_vect m) && Z.testbit (TIMSK1 (TIMER1_OVF_vect m)) TOIE1
  = interrupts_enabled m && Z.testbit (TIMSK1 m) TOIE1.
Proof.
  destruct (tick_frame m) as (Hs & _ & _ & _ & _ & Hk).
  unfold interrupts_enabled; rewrite Hs, Hk; reflexivity.
Qed.

(** Overflows that do not outnumber the counter only lower the counter. *)
Lemma overflow_interrupts_counting n : forall m,
  0 <= buzzerTimeout m < 65536 -> Z.of_nat n <= buzzerTimeout m ->
  exists x,
    overflow_interrupts n m = set_buzzerTimeout x m
    /\ buzzerTimeout m - Z.of_nat n <= x <= buzzerTimeout m.
Proof.
  induction n as [| n IH]; intros m Hr Hn.
  - exists (buzzerTimeout m); split; [| lia].
    symmetry; apply set_buzzerTimeout_same.
  - cbn [overflow_interrupts].
    destruct (overflow_interrupt_cases m) as [[-> _] | [-> _]].
    + destruct (IH m Hr ltac:(lia)) as (x & Hx & Hb).
      exists x; split; [exact Hx | lia].
    + rewrite tick_counting by lia.
      destruct (IH (set_buzzerTimeout (buzzerTimeout m - 1) m))
        as (x & Hx & Hb);
        cbn [buzzerTimeout set_buzzerTimeout] in *; try lia.
      exists x; split; [rewrite Hx; reflexivity | lia].
Qed.

(** X16: overflow interrupts taken inside [playFrequency] between the
    clearing of the flag and [cli()] change nothing as long as none of them
    finds the counter at zero: when the handler executions in that window
    do not outnumber the counter value on entry, the call leaves the
    machine exactly as the uninterrupted call does. *)
Theorem preemption_before_expiry_is_harmless a b c freq duration volume m :
  0 <= buzzerTimeout m < 65536 ->
  Z.of_nat (a + b + c) <= buzzerTimeout m ->
  playFrequency_preempted a b c freq duration volume m
  = playFrequency freq duration volume m.
Proof.
  intros Hr Hn.
  rewrite playFrequency_split; unfold playFrequency_preempted.
  set (m0 := set_buzzerFinished 0 m).
  assert (Ht0 : buzzerTimeout m0 = buzzerTimeout m) by reflexivity.
  destruct (overflow_interrupts_counting a m0) as (x1 & -> & H1); try lia.
  destruct (overflow_interrupts_counting b (set_buzzerTimeout x1 m0))
    as (x2 & -> & H2); cbn [buzzerTimeout set_buzzerTimeout] in *; try lia.
  rewrite set_buzzerTimeout_twice, set_pin_timeout.
  destruct (overflow_interrupts_counting c
              (set_buzzerTimeout x2 (set_pin volume m0)))
    as (x3 & -> & H3); cbn [buzzerTimeout set_buzzerTimeout] in *; try lia.
  rewrite set_buzzerTimeout_twice, write_registers_ignores_timeout.
  reflexivity.
Qed.

Lemma preemption_before_expiry_is_harmless_witness :
  0 <= buzzerTimeout (sei (ticks 1 (init power_on))) < 65536
  /\ Z.of_nat (1 + 1 + 1) <= buzzerTimeout (sei (ticks 1 (init power_on)))
  /\ playFrequency_preempted 1 1 1 440 1000 15 (sei (ticks 1 (init power_on)))
     = playFrequency 440 1000 15 (sei (ticks 1 (init power_on))).
Proof.
  assert (E : buzzerTimeout (sei (ticks 1 (init power_on))) = 65535)
    by reflexivity.
  split; [rewrite E; lia |].
  split; [rewrite E; cbn; lia |].
  apply (preemption_before_expiry_is_harmless 1 1 1 440 1000 15
           (sei (ticks 1 (init power_on)))); rewrite E; cbn; lia.
Defined.

Lemma overflow_interrupt_keeps_finished m :
  buzzerFinished m <> 0 -> buzzerFinished (overflow_interrupt m) <> 0.
Proof.
  intros Hf.
  destruct (overflow_interrupt_cases m) as [[-> _] | [-> _]];
    [exact Hf | apply tick_keeps_finished, Hf].
Qed.

Lemma overflow_interrupt_keeps_gate m :
  interrupts_enabled (overflow_interrupt m)
  && Z.testbit (TIMSK1 (overflow_interrupt m)) TOIE1
  = interrupts_enabled m && Z.testbit (TIMSK1 m) TOIE1.
Proof.
  destruct (overflow_interrupt_cases m) as [[-> _] | [-> _]];
    [reflexivity | apply tick_keeps_gate].
Qed.

Lemma overflow_interrupts_keep_finished n : forall m,
  buzzerFinished m <> 0 -> buzzerFinished (overflow_interrupts n m) <> 0.
Proof.
  induction n as [| n IH]; intros m Hf; [exact Hf |].
  cbn [overflow_interrupts]; apply IH, overflow_interrupt_keeps_finished, Hf.
Qed.

Lemma overflow_interrupts_keep_gate n : forall m,
  interrupts_enabled (overflow_interrupts n m)
  && Z.testbit (TIMSK1 (overflow_interrupts n m)) TOIE1
  = interrupts_enabled m && Z.testbit (TIMSK1 m) TOIE1.
Proof.
  induction n as [| n IH]; intros m; [reflexivity |].
  cbn [overflow_interrupts]; rewrite IH.
  apply overflow_interrupt_keeps_gate.
Qed.

(** An overflow taken at counter zero raises the flag, and later ones keep
    it raised. *)
Lemma overflow_interrupts_expire n m :
  buzzerTimeout m = 0 ->
  interrupts_enabled m && Z.testbit (TIMSK1 m) TOIE1 = true ->
  (0 < n)%nat ->
  buzzerFinished (overflow_interrupts n m) <> 0.
Proof.
  intros Ht Hg Hn.
  destruct n as [| n]; [lia |].
  cbn [overflow_interrupts]; apply overflow_interrupts_keep_finished.
  unfold overflow_interrupt; rewrite Hg.
  destruct (tick_expiring m Ht) as [-> _]; discriminate.
Qed.

Lemma set_pin_frame volume m :
  buzzerFinished (set_pin volume m) = buzzerFinished m
  /\ buzzerTimeout (set_pin volume m) = buzzerTimeout m
  /\ interrupts_enabled (set_pin volume m)
     && Z.testbit (TIMSK1 (set_pin volume m)) TOIE1
     = interrupts_enabled m && Z.testbit (TIMSK1 m) TOIE1.
Proof. unfold set_pin; destruct (volume =? 0); repeat split. Qed.

(** X17: the flag is cleared at line 139 but interrupts are disabled only
    at line 196.  When [playFrequency] is entered with the counter at zero
    and the overflow interrupt enabled, and the handler is taken in
    between, the handler sets the flag again and the call then programs the
    tone all the same: on return [isPlaying()] is 0 although prescaler, top
    and timeout of the new tone are in place, and the pin is driven when the
    handler ran before the pin write and the volume is not 0. *)
Theorem expiry_inside_call_reports_finished a b c freq duration volume m :
  buzzerTimeout m = 0 ->
  interrupts_enabled m = true -> Z.testbit (TIMSK1 m) TOIE1 = true ->
  (0 < a + b + c)%nat ->
  let m' := playFrequency_preempted a b c freq duration volume m in
  isPlaying m' = 0
  /\ clock_select m' = prescaler_bits freq
  /\ OCR1A m' = counter_top freq
  /\ buzzerTimeout m' = compute_timeout (timeout_frequency freq) duration
  /\ (c = 0%nat -> volume <> 0 -> pin_is_input m' = false).
Proof.
  intros Ht Hi Hk Hn m'; subst m'; unfold playFrequency_preempted.
  set (m0 := set_buzzerFinished 0 m).
  set (m1 := overflow_interrupts a m0).
  set (m2 := overflow_interrupts b m1).
  set (m3 := set_pin volume m2).
  set (m4 := overflow_interrupts c m3).
  assert (Hg0 : interrupts_enabled m0 && Z.testbit (TIMSK1 m0) TOIE1 = true).
  { subst m0; unfold interrupts_enabled in *; cbn [SREG TIMSK1
      set_buzzerFinished]; rewrite Hi, Hk; reflexivity. }
  assert (Hfin : buzzerFinished m4 <> 0).
  { destruct (set_pin_frame volume m2) as (Hf3 & Ht3 & Hg3); fold m3 in Hf3, Ht3, Hg3.
    destruct a as [| a].
    - assert (E1 : m1 = m0) by reflexivity.
      destruct b as [| b].
      + assert (E2 : m2 = m0) by (subst m2; rewrite E1; reflexivity).
        apply overflow_interrupts_expire; [| | lia].
        * rewrite Ht3, E2; exact Ht.
        * rewrite Hg3, E2; exact Hg0.
      + apply overflow_interrupts_keep_finished.
        rewrite Hf3; unfold m2; rewrite E1.
        apply overflow_interrupts_expire; [exact Ht | exact Hg0 | lia].
    - apply overflow_interrupts_keep_finished.
      rewrite Hf3; apply overflow_interrupts_keep_finished.
      apply overflow_interrupts_expire; [exact Ht | exact Hg0 | lia]. }
  destruct (write_registers_fields freq duration volume
              (Z.land (TCCR1B m1) 0xF8) m4)
    as (Ef & Ed & Ea & Eb & Et).
  unfold isPlaying, clock_select, pin_is_input.
  rewrite Ef, Ed, Ea, Eb, Et.
  split.
  { destruct (Z.eqb_spec (buzzerFinished m4) 0); [contradiction | reflexivity]. }
  split; [apply select_clock, prescaler_bits_cases |].
  split; [reflexivity |].
  split; [reflexivity |].
  intros -> Hv.
  subst m4 m3; cbn [overflow_interrupts]; unfold set_pin.
  destruct (Z.eqb_spec volume 0); [contradiction |].
  cbn [DDRB set_DDRB].
  rewrite testbit_set_bit by (unfold PB2; lia); reflexivity.
Qed.

Lemma expiry_inside_call_reports_finished_witness :
  buzzerTimeout (sei (init power_on)) = 0
  /\ interrupts_enabled (sei (init power_on)) = true
  /\ Z.testbit (TIMSK1 (sei (init power_on))) TOIE1 = true
  /\ (0 < 1 + 0 + 0)%nat
  /\ isPlaying (playFrequency_preempted 1 0 0 440 1000 15 (sei (init power_on)))
     = 0
  /\ OCR1A (playFrequency_preempted 1 0 0 440 1000 15 (sei (init power_on)))
     = counter_top 440.
Proof.
  split; [reflexivity |]; split; [reflexivity |]; split; [reflexivity |].
  split; [cbn; lia |].
  pose proof (expiry_inside_call_reports_finished 1 0 0 440 1000 15
                (sei (init power_on))) as H.
  destruct H as (H1 & _ & H2 & _);
    [reflexivity | reflexivity | reflexivity | cbn; lia |].
  split; [exact H1 | exact H2].
Defined.
